(** * Farkle: scoring engine and match state machine

    A shallow embedding of the scoring rules ([public/rules.js]:
    [calculateScore], [hasPossibleMoves], [isScoringSelection]) and of the
    server-side match ([server.js]: class [GameState], the socket handlers
    and the room list) and of the controls of the client
    ([public/client.js]: [canInteract], [renderControls]), followed by the
    properties of the specification and further properties of the code.

    Conventions.
    - Die faces and counts are [nat]; point values and scores are [Z]
      (JavaScript numbers; every value involved is an integer far below
      2^53, so no rounding occurs and [Z] arithmetic is exact).
    - The JavaScript object [counts] is an association list kept in
      ascending key order: the keys of an object that are array indices
      (integers from 0 to 2^32 - 2, which include every die face) are
      enumerated ascending by [Object.keys] and [Object.values].  Larger
      integer keys are enumerated in insertion order; the code reads the
      enumeration only through its length and through tests on all values,
      and no statement below that speaks of the order goes beyond array
      indices.
    - Methods of [GameState] mutate [this] and may raise a [TypeError] when a
      player slot is [undefined]; they are written in a state monad with an
      exception that carries the state reached when it was raised. *)

From Stdlib Require Import String.
From Stdlib Require Import List Arith ZArith Bool Lia Setoid Permutation Sorted.
Import ListNotations.

Local Open Scope Z_scope.

(* ================================================================== *)
(** * Scoring engine *)
(* ================================================================== *)

Module Rules.

(** The rule configuration ([DEFAULT_RULES] gives the fields). *)
Record Rules := mkRules {
  single1 : Z;
  single5 : Z;
  triple1 : Z;
  triple2 : Z;
  triple3 : Z;
  triple4 : Z;
  triple5 : Z;
  triple6 : Z;
  straight : Z;
  threePairs : Z;
  fourOfAKind : Z;
  fiveOfAKind : Z;
  sixOfAKind : Z;
  sixOnes : Z;
  twoTriplets : Z;
  fullHouseBonus : Z;
  fourStraight : Z;
  fiveStraight : Z;
  enableThreePairs : bool;
  enableTwoTriplets : bool;
  enableFullHouse : bool;
  enableSixOnesInstantWin : bool;
  enable4Straight : bool;
  enable5Straight : bool;
  openingScore : Z;
  winScore : Z;
  threeFarklesPenalty : Z;
  toxicTwos : bool;
  welfareMode : bool;
  highStakes : bool;
  noFarkleFirstRoll : bool
}.

Definition DEFAULT_RULES : Rules := {|
  single1 := 100;
  single5 := 50;
  triple1 := 1000;
  triple2 := 200;
  triple3 := 300;
  triple4 := 400;
  triple5 := 500;
  triple6 := 600;
  straight := 1500;
  threePairs := 1500;
  fourOfAKind := 1000;
  fiveOfAKind := 2000;
  sixOfAKind := 3000;
  sixOnes := 5000;
  twoTriplets := 2500;
  fullHouseBonus := 250;
  fourStraight := 500;
  fiveStraight := 1200;
  enableThreePairs := true;
  enableTwoTriplets := true;
  enableFullHouse := false;
  enableSixOnesInstantWin := false;
  enable4Straight := false;
  enable5Straight := false;
  openingScore := 0;
  winScore := 10000;
  threeFarklesPenalty := 1000;
  toxicTwos := false;
  welfareMode := false;
  highStakes := false;
  noFarkleFirstRoll := true
|}.

(** ** The [counts] object *)

(** [counts]: face |-> number of occurrences, keys ascending. *)
Definition Counts := list (nat * nat).

(** [counts[k]]: [None] is [undefined]. *)
Fixpoint get (c : Counts) (k : nat) : option nat :=
  match c with
  | [] => None
  | (k', n) :: c' => if (k =? k')%nat then Some n else get c' k
  end.

(** [counts[k] = n], keeping the enumeration order of array-index keys
    (integers below 2^32 - 1). *)
Fixpoint set (c : Counts) (k n : nat) : Counts :=
  match c with
  | [] => [(k, n)]
  | (k', n') :: c' =>
      if (k <? k')%nat then (k, n) :: c
      else if (k =? k')%nat then (k, n) :: c'
      else (k', n') :: set c' k n
  end.

(** [counts[k] || 0]: [undefined] and [0] are both falsy. *)
Definition getOr0 (c : Counts) (k : nat) : nat :=
  match get c k with
  | Some n => n
  | None => 0%nat
  end.

(** [for (const die of dice) counts[die] = (counts[die] || 0) + 1]. *)
Definition countDice (dice : list nat) : Counts :=
  fold_left (fun c die => set c die (getOr0 c die + 1)%nat) dice [].

(** [Object.keys(counts)] and [Object.values(counts)]. *)
Definition keys (c : Counts) : list nat := map fst c.
Definition values (c : Counts) : list nat := map snd c.

(** Truthiness of [counts[k]]: defined and non-zero. *)
Definition truthy (c : Counts) (k : nat) : bool :=
  match get c k with
  | Some n => negb (n =? 0)%nat
  | None => false
  end.

(** [counts[k] === n]. *)
Definition countIs (c : Counts) (k n : nat) : bool :=
  match get c k with
  | Some m => (m =? n)%nat
  | None => false
  end.

(** [counts[k] >= n] and [counts[k] > n]; a comparison with [undefined] is
    false. *)
Definition countGe (c : Counts) (k n : nat) : bool :=
  match get c k with
  | Some m => (n <=? m)%nat
  | None => false
  end.

Definition countGt (c : Counts) (k n : nat) : bool :=
  match get c k with
  | Some m => (n <? m)%nat
  | None => false
  end.

(** [vals[i] === n] on an array: out of range is [undefined]. *)
Definition nthIs (l : list nat) (i n : nat) : bool :=
  match nth_error l i with
  | Some m => (m =? n)%nat
  | None => false
  end.

(** ** calculateScore *)

(** The [switch (face)] that picks the triple value. *)
Definition tripleValueOf (rules : Rules) (face : nat) : Z :=
  match face with
  | 1%nat => triple1 rules
  | 2%nat => triple2 rules
  | 3%nat => triple3 rules
  | 4%nat => triple4 rules
  | 5%nat => triple5 rules
  | 6%nat => triple6 rules
  | _ => 0
  end.

(** [a || b] on numbers. *)
Definition orElse (a b : Z) : Z := if a =? 0 then b else a.

(** One iteration of the loop [for (let face = 1; face <= 6; face++)]: the
    amount added to [score] for [face] occurring [count] times.  The block
    that distinguishes counts 4, 5 and 6 sits inside the branch
    [else if (count === 4)], after the first addition of that branch. *)
Definition faceScore (rules : Rules) (face count : nat) : Z :=
  if (count =? 0)%nat then 0
  else
    let tripleValue := tripleValueOf rules face in
    if (3 <=? count)%nat then
      if (count =? 3)%nat then tripleValue
      else if (count =? 4)%nat then
        orElse (fourOfAKind rules) (tripleValue * 2)
        + (if (face =? 1)%nat
              && (fourOfAKind rules <? 1000 + (Z.of_nat count - 3) * 100)
           then tripleValue + (Z.of_nat count - 3) * single1 rules
           else if (count =? 4)%nat then fourOfAKind rules
           else if (count =? 5)%nat then fiveOfAKind rules
           else if (count =? 6)%nat then sixOfAKind rules
           else tripleValue)
      else 0
    else
      if (face =? 1)%nat then Z.of_nat count * single1 rules
      else if (face =? 5)%nat then Z.of_nat count * single5 rules
      else 0.

(** The standard counting score: the loop over faces 1..6. *)
Definition countingScore (rules : Rules) (counts : Counts) : Z :=
  fold_left (fun score face => score + faceScore rules face (getOr0 counts face))
            [1; 2; 3; 4; 5; 6]%nat 0.

Definition calculateScore (dice : list nat) (rules : Rules) : Z :=
  if (length dice =? 0)%nat then 0
  else
    let counts := countDice dice in
    let distinct := length (keys counts) in
    let totalDice := length dice in
    (* 1. Straight (1-6) *)
    if (totalDice =? 6)%nat && (distinct =? 6)%nat then straight rules
    (* 2. Six ones *)
    else if countIs counts 1 6 then sixOnes rules
    (* 3. Six of a kind *)
    else if existsb (fun i => countIs counts i 6) [2; 3; 4; 5; 6]%nat
    then sixOfAKind rules
    (* 4. 5-straight *)
    else if enable5Straight rules && (totalDice =? 5)%nat && (distinct =? 5)%nat
            && ((truthy counts 1 && truthy counts 2 && truthy counts 3
                 && truthy counts 4 && truthy counts 5 && negb (truthy counts 6))
                || (truthy counts 2 && truthy counts 3 && truthy counts 4
                    && truthy counts 5 && truthy counts 6 && negb (truthy counts 1)))
    then fiveStraight rules
    (* 5. 4-straight *)
    else if enable4Straight rules && (totalDice =? 4)%nat && (distinct =? 4)%nat
            && (let has1234 := truthy counts 1 && truthy counts 2 && truthy counts 3
                               && truthy counts 4 && negb (truthy counts 5)
                               && negb (truthy counts 6) in
                let has2345 := truthy counts 2 && truthy counts 3 && truthy counts 4
                               && truthy counts 5 && negb (truthy counts 1)
                               && negb (truthy counts 6) in
                let has3456 := truthy counts 3 && truthy counts 4 && truthy counts 5
                               && truthy counts 6 && negb (truthy counts 1)
                               && negb (truthy counts 2) in
                has1234 || has2345 || has3456)
    then fourStraight rules
    (* 6. Three pairs *)
    else if enableThreePairs rules && (totalDice =? 6)%nat && (distinct =? 3)%nat
            && forallb (fun c => (c =? 2)%nat) (values counts)
    then threePairs rules
    (* Two triplets *)
    else if enableTwoTriplets rules && (totalDice =? 6)%nat && (distinct =? 2)%nat
            && (let vals := values counts in nthIs vals 0 3 && nthIs vals 1 3)
    then twoTriplets rules
    else countingScore rules counts.

(** ** hasPossibleMoves *)

Definition hasPossibleMoves (dice : list nat) (rules : Rules) : bool :=
  if (length dice =? 0)%nat then false
  else
    let counts := countDice dice in
    if countGt counts 1 0 || countGt counts 5 0 then true
    else if existsb (fun i => countGe counts i 3) [1; 2; 3; 4; 5; 6]%nat then true
    else if (length (keys counts) =? 6)%nat then true
    else if enableThreePairs rules && (length dice =? 6)%nat
            && forallb (fun c => (c =? 2)%nat) (values counts) then true
    else if enable5Straight rules && (5 <=? length dice)%nat
            && (let has12345 := truthy counts 1 && truthy counts 2 && truthy counts 3
                                && truthy counts 4 && truthy counts 5 in
                let has23456 := truthy counts 2 && truthy counts 3 && truthy counts 4
                                && truthy counts 5 && truthy counts 6 in
                has12345 || has23456) then true
    else if enable4Straight rules && (4 <=? length dice)%nat
            && (let has1234 := truthy counts 1 && truthy counts 2 && truthy counts 3
                               && truthy counts 4 in
                let has2345 := truthy counts 2 && truthy counts 3 && truthy counts 4
                               && truthy counts 5 in
                let has3456 := truthy counts 3 && truthy counts 4 && truthy counts 5
                               && truthy counts 6 in
                has1234 || has2345 || has3456) then true
    else false.

(** ** isScoringSelection *)

Definition isScoringSelection (dice : list nat) (rules : Rules) : bool :=
  let score := calculateScore dice rules in
  if score =? 0 then false
  else
    let counts := countDice dice in
    if (length dice =? 6)%nat && (length (keys counts) =? 6)%nat then true
    else if enableThreePairs rules && (length dice =? 6)%nat
            && forallb (fun c => (c =? 2)%nat) (values counts) then true
    else if enable5Straight rules && (length dice =? 5)%nat
            && (length (keys counts) =? 5)%nat
            && (negb (truthy counts 6) || negb (truthy counts 1)) then true
    else if enable4Straight rules && (length dice =? 4)%nat
            && (length (keys counts) =? 4)%nat
            && (let has1234 := truthy counts 1 && truthy counts 2 && truthy counts 3
                               && truthy counts 4 in
                let has2345 := truthy counts 2 && truthy counts 3 && truthy counts 4
                               && truthy counts 5 in
                let has3456 := truthy counts 3 && truthy counts 4 && truthy counts 5
                               && truthy counts 6 in
                has1234 || has2345 || has3456) then true
    else
      (* the loop returns false at the first face 2, 3, 4 or 6 that is
         present fewer than three times *)
      forallb (fun face =>
                 let c := getOr0 counts face in
                 if (0 <? c)%nat then
                   if (face =? 1)%nat || (face =? 5)%nat then true
                   else negb (c <? 3)%nat
                 else true)
              [1; 2; 3; 4; 5; 6]%nat.

End Rules.

Import Rules.

(* ================================================================== *)
(** * Tallies, sub-selections and the shapes of the specification *)
(* ================================================================== *)

(** [cnt f dice]: how many dice show face [f]. *)
Definition cnt (f : nat) (dice : list nat) : nat := count_occ Nat.eq_dec dice f.

(** Die faces are 1..6. *)
Definition validFaces (dice : list nat) : Prop :=
  Forall (fun d => (1 <= d <= 6)%nat) dice.

(** The number of dice per face. *)
Record Tally := mkTally { n1 : nat; n2 : nat; n3 : nat; n4 : nat; n5 : nat; n6 : nat }.

(** The tally of a selection. *)
Definition tally (dice : list nat) : Tally :=
  mkTally (cnt 1 dice) (cnt 2 dice) (cnt 3 dice) (cnt 4 dice) (cnt 5 dice) (cnt 6 dice).

(** The number of dice tallied. *)
Definition total (t : Tally) : nat := (n1 t + n2 t + n3 t + n4 t + n5 t + n6 t)%nat.

(** The counts object that a tally stands for: the faces present, ascending. *)
Definition entry (k c : nat) : Counts := if (c =? 0)%nat then [] else [(k, c)].

Definition canon (t : Tally) : Counts :=
  entry 1 (n1 t) ++ entry 2 (n2 t) ++ entry 3 (n3 t)
  ++ entry 4 (n4 t) ++ entry 5 (n5 t) ++ entry 6 (n6 t).

(** One more die of face [d]. *)
Definition bump (d : nat) (t : Tally) : Tally :=
  match d with
  | 1%nat => mkTally (n1 t + 1) (n2 t) (n3 t) (n4 t) (n5 t) (n6 t)
  | 2%nat => mkTally (n1 t) (n2 t + 1) (n3 t) (n4 t) (n5 t) (n6 t)
  | 3%nat => mkTally (n1 t) (n2 t) (n3 t + 1) (n4 t) (n5 t) (n6 t)
  | 4%nat => mkTally (n1 t) (n2 t) (n3 t) (n4 t + 1) (n5 t) (n6 t)
  | 5%nat => mkTally (n1 t) (n2 t) (n3 t) (n4 t) (n5 t + 1) (n6 t)
  | 6%nat => mkTally (n1 t) (n2 t) (n3 t) (n4 t) (n5 t) (n6 t + 1)
  | _ => t
  end.

Definition faceCount (t : Tally) (k : nat) : nat :=
  match k with
  | 1%nat => n1 t | 2%nat => n2 t | 3%nat => n3 t
  | 4%nat => n4 t | 5%nat => n5 t | 6%nat => n6 t
  | _ => 0%nat
  end.

(** [present c] is 1 when the face occurs, so that the number of keys of the
    counts object is a sum. *)
Definition present (c : nat) : nat := if (c =? 0)%nat then 0%nat else 1%nat.

Definition distinctFaces (t : Tally) : nat :=
  (present (n1 t) + present (n2 t) + present (n3 t)
   + present (n4 t) + present (n5 t) + present (n6 t))%nat.

(** Every face that occurs, occurs exactly [m] times. *)
Definition allPresentAre (m : nat) (t : Tally) : bool :=
  let ok c := (c =? 0)%nat || (c =? m)%nat in
  ok (n1 t) && ok (n2 t) && ok (n3 t) && ok (n4 t) && ok (n5 t) && ok (n6 t).

(** ** Sub-selections and rule configurations *)

(** [s] is a sub-multiset of [d]: no face occurs more often in [s]. *)
Definition subMultiset (s d : list nat) : Prop :=
  forall f, (cnt f s <= cnt f d)%nat.

(** The point values that a winning sub-selection relies on. *)
Definition positiveValues (rules : Rules) : Prop :=
  0 < single1 rules /\ 0 < single5 rules
  /\ 0 < triple2 rules /\ 0 < triple3 rules /\ 0 < triple4 rules /\ 0 < triple6 rules
  /\ (enableThreePairs rules = true -> 0 < threePairs rules).

(** [rules] with another value for a single 1. *)
Definition withSingle1 (v : Z) (r : Rules) : Rules :=
  mkRules v (single5 r) (triple1 r) (triple2 r) (triple3 r) (triple4 r) (triple5 r)
    (triple6 r) (straight r) (threePairs r) (fourOfAKind r) (fiveOfAKind r)
    (sixOfAKind r) (sixOnes r) (twoTriplets r) (fullHouseBonus r) (fourStraight r)
    (fiveStraight r) (enableThreePairs r) (enableTwoTriplets r) (enableFullHouse r)
    (enableSixOnesInstantWin r) (enable4Straight r) (enable5Straight r)
    (openingScore r) (winScore r) (threeFarklesPenalty r) (toxicTwos r)
    (welfareMode r) (highStakes r) (noFarkleFirstRoll r).

(** The default rules, except that a single 1 scores 0. *)
Definition worthlessOnes : Rules := withSingle1 0 DEFAULT_RULES.

(** No point value used by [calculateScore] is negative. *)
Definition nonNegativeValues (rules : Rules) : Prop :=
  0 <= single1 rules /\ 0 <= single5 rules
  /\ 0 <= triple1 rules /\ 0 <= triple2 rules /\ 0 <= triple3 rules
  /\ 0 <= triple4 rules /\ 0 <= triple5 rules /\ 0 <= triple6 rules
  /\ 0 <= straight rules /\ 0 <= threePairs rules
  /\ 0 <= fourOfAKind rules /\ 0 <= fiveOfAKind rules /\ 0 <= sixOfAKind rules
  /\ 0 <= sixOnes rules /\ 0 <= twoTriplets rules
  /\ 0 <= fourStraight rules /\ 0 <= fiveStraight rules.

(** ** Complete selections, in the words of the specification *)

(** Two selections with the same dice, in any order. *)
Definition sameFaces (a b : list nat) : Prop := forall f, cnt f a = cnt f b.

(** Six dice, six distinct faces. *)
Definition fullStraightShape (dice : list nat) : Prop :=
  sameFaces dice [1; 2; 3; 4; 5; 6]%nat.

(** Six dice in three pairs: every face present occurs exactly twice. *)
Definition threePairsShape (dice : list nat) : Prop :=
  length dice = 6%nat /\ forall f, In f dice -> cnt f dice = 2%nat.

(** Six dice as two triplets: every face present occurs exactly three times. *)
Definition twoTripletsShape (dice : list nat) : Prop :=
  length dice = 6%nat /\ forall f, In f dice -> cnt f dice = 3%nat.

(** Five dice forming 1-5 or 2-6. *)
Definition fiveStraightShape (dice : list nat) : Prop :=
  sameFaces dice [1; 2; 3; 4; 5]%nat \/ sameFaces dice [2; 3; 4; 5; 6]%nat.

(** Four dice forming 1-4, 2-5 or 3-6. *)
Definition fourStraightShape (dice : list nat) : Prop :=
  sameFaces dice [1; 2; 3; 4]%nat \/ sameFaces dice [2; 3; 4; 5]%nat
  \/ sameFaces dice [3; 4; 5; 6]%nat.

(** The whole-set combinations of the scoring function; three pairs, two
    triplets and the short straights exist only when the rules enable them. *)
Definition wholeSetPattern (dice : list nat) (rules : Rules) : Prop :=
  fullStraightShape dice
  \/ (enableThreePairs rules = true /\ threePairsShape dice)
  \/ (enableTwoTriplets rules = true /\ twoTripletsShape dice)
  \/ (enable5Straight rules = true /\ fiveStraightShape dice)
  \/ (enable4Straight rules = true /\ fourStraightShape dice).

(** 1s and 5s always contribute; any other face present must occur at least
    three times. *)
Definition everyFaceContributes (dice : list nat) : Prop :=
  forall f, In f dice -> f = 1%nat \/ f = 5%nat \/ (3 <= cnt f dice)%nat.

(** No dead die rides along. *)
Definition everyDieContributes (dice : list nat) (rules : Rules) : Prop :=
  wholeSetPattern dice rules \/ everyFaceContributes dice.

(** The specification of [isCompleteScoringSelection]. *)
Definition completeSelection (dice : list nat) (rules : Rules) : Prop :=
  0 < calculateScore dice rules /\ everyDieContributes dice rules.

(** Three pairs and two triplets, on the tally. *)
Definition pairsTally (t : Tally) : Prop :=
  total t = 6%nat /\ allPresentAre 2 t = true.

Definition tripletsTally (t : Tally) : Prop :=
  total t = 6%nat /\ allPresentAre 3 t = true.

(** Faces 2, 3, 4 and 6 are absent or occur at least three times. *)
Definition contributingTally (t : Tally) : Prop :=
  (n2 t = 0 \/ 3 <= n2 t)%nat /\ (n3 t = 0 \/ 3 <= n3 t)%nat
  /\ (n4 t = 0 \/ 3 <= n4 t)%nat /\ (n6 t = 0 \/ 3 <= n6 t)%nat.

(** The loop over the faces that ends [isScoringSelection], on the tally. *)
Definition faceLoop (t : Tally) : bool :=
  (if (0 <? n1 t)%nat then true else true) &&
  ((if (0 <? n2 t)%nat then negb (n2 t <? 3)%nat else true) &&
   ((if (0 <? n3 t)%nat then negb (n3 t <? 3)%nat else true) &&
    ((if (0 <? n4 t)%nat then negb (n4 t <? 3)%nat else true) &&
     ((if (0 <? n5 t)%nat then true else true) &&
      ((if (0 <? n6 t)%nat then negb (n6 t <? 3)%nat else true) && true))))).

(** ** Every tally of at most six dice *)

(** The 924 tallies of at most six dice. *)
Definition smallTallies : list Tally :=
  flat_map (fun a => flat_map (fun b => flat_map (fun c =>
  flat_map (fun d => flat_map (fun e =>
  map (fun f => mkTally a b c d e f)
    (seq 0 (7 - a - b - c - d - e)))
    (seq 0 (7 - a - b - c - d)))
    (seq 0 (7 - a - b - c)))
    (seq 0 (7 - a - b)))
    (seq 0 (7 - a)))
    (seq 0 7).

(** [check] holds of every tally of at most six dice. *)
Definition checkTallies (check : Tally -> bool) : bool :=
  forallb check smallTallies.

(* ================================================================== *)
(** * Match state machine ([server.js]) *)
(* ================================================================== *)

Module Server.

(** A die on the table: [{ id, value, selected }]. *)
Record Die := mkDie {
  dieId : string;
  value : nat;
  selected : bool
}.

(** A seated player: [{ id, name, score, connected }]. *)
Record Player := mkPlayer {
  id : string;
  name : string;
  score : Z;
  connected : bool
}.

Inductive Status := waiting | playing | finished.

(** [winner] is [null], a reference to [players[0]] or [players[1]], or the
    string ['tie'].  A reference is kept as the seat it points to. *)
Inductive Winner := noWinner | winnerSeat (seat : nat) | tie.

Record GameState := mkGame {
  roomCode : string;
  players : list Player;
  currentPlayerIndex : nat;
  roundAccumulatedScore : Z;
  diceCountToRoll : nat;
  currentDice : list Die;
  isFinalRound : bool;
  finalRoundTriggeredBy : option nat;
  gameStatus : Status;
  winner : Winner
}.

(** The constructor. *)
Definition newGame (room : string) : GameState :=
  mkGame room [] 0 0 6 [] false None waiting noWinner.

(** Field assignments. *)
Definition setPlayers (v : list Player) (g : GameState) : GameState :=
  mkGame (roomCode g) v (currentPlayerIndex g) (roundAccumulatedScore g)
    (diceCountToRoll g) (currentDice g) (isFinalRound g) (finalRoundTriggeredBy g)
    (gameStatus g) (winner g).

Definition setCurrentPlayerIndex (v : nat) (g : GameState) : GameState :=
  mkGame (roomCode g) (players g) v (roundAccumulatedScore g)
    (diceCountToRoll g) (currentDice g) (isFinalRound g) (finalRoundTriggeredBy g)
    (gameStatus g) (winner g).

Definition setRoundAccumulatedScore (v : Z) (g : GameState) : GameState :=
  mkGame (roomCode g) (players g) (currentPlayerIndex g) v
    (diceCountToRoll g) (currentDice g) (isFinalRound g) (finalRoundTriggeredBy g)
    (gameStatus g) (winner g).

Definition setDiceCountToRoll (v : nat) (g : GameState) : GameState :=
  mkGame (roomCode g) (players g) (currentPlayerIndex g) (roundAccumulatedScore g)
    v (currentDice g) (isFinalRound g) (finalRoundTriggeredBy g)
    (gameStatus g) (winner g).

Definition setCurrentDice (v : list Die) (g : GameState) : GameState :=
  mkGame (roomCode g) (players g) (currentPlayerIndex g) (roundAccumulatedScore g)
    (diceCountToRoll g) v (isFinalRound g) (finalRoundTriggeredBy g)
    (gameStatus g) (winner g).

Definition setIsFinalRound (v : bool) (g : GameState) : GameState :=
  mkGame (roomCode g) (players g) (currentPlayerIndex g) (roundAccumulatedScore g)
    (diceCountToRoll g) (currentDice g) v (finalRoundTriggeredBy g)
    (gameStatus g) (winner g).

Definition setFinalRoundTriggeredBy (v : option nat) (g : GameState) : GameState :=
  mkGame (roomCode g) (players g) (currentPlayerIndex g) (roundAccumulatedScore g)
    (diceCountToRoll g) (currentDice g) (isFinalRound g) v
    (gameStatus g) (winner g).

Definition setGameStatus (v : Status) (g : GameState) : GameState :=
  mkGame (roomCode g) (players g) (currentPlayerIndex g) (roundAccumulatedScore g)
    (diceCountToRoll g) (currentDice g) (isFinalRound g) (finalRoundTriggeredBy g)
    v (winner g).

Definition setWinner (v : Winner) (g : GameState) : GameState :=
  mkGame (roomCode g) (players g) (currentPlayerIndex g) (roundAccumulatedScore g)
    (diceCountToRoll g) (currentDice g) (isFinalRound g) (finalRoundTriggeredBy g)
    (gameStatus g) v.

Definition isStatus (s : Status) (g : GameState) : bool :=
  match gameStatus g, s with
  | waiting, waiting | playing, playing | finished, finished => true
  | _, _ => false
  end.

(** ** Methods: state passing with a [TypeError] *)

(** A call either returns a value or throws (reading a property of an
    [undefined] player); both leave a state behind. *)
Inductive Outcome (A : Type) : Type :=
| Returned (a : A) (g : GameState)
| Thrown (g : GameState).

Arguments Returned {A} a g.
Arguments Thrown {A} g.

Definition M (A : Type) : Type := GameState -> Outcome A.

Definition ret {A : Type} (a : A) : M A := fun g => Returned a g.

Definition bind {A B : Type} (m : M A) (k : A -> M B) : M B :=
  fun g => match m g with
           | Returned a g' => k a g'
           | Thrown g' => Thrown g'
           end.

Definition getState : M GameState := fun g => Returned g g.

Definition modify (f : GameState -> GameState) : M unit :=
  fun g => Returned tt (f g).

Definition throwTypeError {A : Type} : M A := fun g => Thrown g.

Notation "x <- m ;; k" := (bind m (fun x => k))
  (at level 61, m at next level, right associativity).
Notation "m ;;; k" := (bind m (fun _ => k))
  (at level 61, right associativity).

(** The state a call leaves behind. *)
Definition stateOf {A : Type} (o : Outcome A) : GameState :=
  match o with
  | Returned _ g => g
  | Thrown g => g
  end.

(** [array.find(pred)], as the index of the element found. *)
Fixpoint findIndex {A : Type} (pred : A -> bool) (l : list A) : option nat :=
  match l with
  | [] => None
  | x :: l' => if pred x then Some 0%nat
               else match findIndex pred l' with
                    | Some i => Some (S i)
                    | None => None
                    end
  end.

(** Mutation of the object at index [i] of an array. *)
Fixpoint updateAt {A : Type} (i : nat) (f : A -> A) (l : list A) : list A :=
  match l, i with
  | [], _ => []
  | x :: l', O => f x :: l'
  | x :: l', S i' => x :: updateAt i' f l'
  end.

Definition addPlayer (pid pname : string) : M bool :=
  g <- getState ;;
  if (2 <=? length (players g))%nat then ret false
  else modify (setPlayers (players g ++ [mkPlayer pid pname 0 true])) ;;; ret true.

Definition resetRound : M unit :=
  modify (fun g => setCurrentDice []
                     (setDiceCountToRoll 6 (setRoundAccumulatedScore 0 g))).

Definition start : M bool :=
  g <- getState ;;
  if (length (players g) =? 2)%nat then
    modify (setGameStatus playing) ;;;
    modify (setCurrentPlayerIndex 0) ;;;
    resetRound ;;;
    ret true
  else ret false.

(** [this.players[this.currentPlayerIndex]]; [None] is [undefined]. *)
Definition getCurrentPlayer (g : GameState) : option Player :=
  nth_error (players g) (currentPlayerIndex g).

(** ** roll *)

(** The random source of one roll: die [i] of the roll gets the face
    [Math.floor(Math.random() * 6) + 1], modelled as [draw i mod 6 + 1], and
    the identifier [freshId i]. *)
Record Rng := mkRng {
  draw : nat -> nat;
  freshId : nat -> string
}.

Inductive RollResult :=
| RollError (error : string)
| RollSuccess (dice : list Die) (farkle : bool) (roundScore : Z) (hotDice : bool).

Definition newDice (rng : Rng) (n : nat) : list Die :=
  map (fun i => mkDie (freshId rng i) (draw rng i mod 6 + 1)%nat false) (seq 0 n).

(** The part of [roll] from [// Perform Roll] on. *)
Definition performRoll (rng : Rng) (scoreFromSelection : Z) : M RollResult :=
  g <- getState ;;
  let dice := newDice rng (diceCountToRoll g) in
  modify (setCurrentDice dice) ;;;
  let rolledValues := map value dice in
  let farkle := negb (hasPossibleMoves rolledValues DEFAULT_RULES) in
  g' <- getState ;;
  ret (RollSuccess dice farkle (roundAccumulatedScore g')
         ((0 <? scoreFromSelection) && (diceCountToRoll g' =? 6)%nat)).

Definition roll (playerId : string) (rng : Rng) : M RollResult :=
  fun g =>
    if negb (isStatus playing g) then Returned (RollError "Game not active") g
    else match getCurrentPlayer g with
         | None => Thrown g
         | Some p =>
             if negb (String.eqb (id p) playerId)
             then Returned (RollError "Not your turn") g
             else if (0 <? length (currentDice g))%nat then
               let sel := filter selected (currentDice g) in
               if (length sel =? 0)%nat
               then Returned (RollError "Must select dice to re-roll") g
               else
                 let values := map value sel in
                 if negb (isScoringSelection values DEFAULT_RULES)
                 then Returned (RollError "Invalid selection") g
                 else
                   let scoreFromSelection := calculateScore values DEFAULT_RULES in
                   let remaining := (length (currentDice g) - length sel)%nat in
                   (modify (setRoundAccumulatedScore
                              (roundAccumulatedScore g + scoreFromSelection)) ;;;
                    modify (setDiceCountToRoll
                              (if (remaining =? 0)%nat then 6%nat else remaining)) ;;;
                    performRoll rng scoreFromSelection) g
             else
               ((if (length (currentDice g) =? 0)%nat
                 then modify (setDiceCountToRoll 6) else ret tt) ;;;
                performRoll rng 0) g
         end.

(** ** toggleSelection *)

Inductive ToggleResult := ToggleUndefined | ToggleTrue.

Definition flipSelected (d : Die) : Die :=
  mkDie (dieId d) (value d) (negb (selected d)).

Definition toggleSelection (playerId dieId' : string) : M ToggleResult :=
  fun g =>
    if negb (isStatus playing g) then Returned ToggleUndefined g
    else match getCurrentPlayer g with
         | None => Thrown g
         | Some p =>
             if negb (String.eqb (id p) playerId) then Returned ToggleUndefined g
             else
               match findIndex (fun d => String.eqb (dieId d) dieId') (currentDice g) with
               | Some i =>
                   Returned ToggleTrue
                     (setCurrentDice (updateAt i flipSelected (currentDice g)) g)
               | None => Returned ToggleTrue g
               end
         end.

(** ** bank, nextTurn, checkWinCondition, endGame, farkle *)

Definition endGame : M unit :=
  modify (setGameStatus finished) ;;;
  g <- getState ;;
  match nth_error (players g) 0, nth_error (players g) 1 with
  | Some p1, Some p2 =>
      if score p2 <? score p1 then modify (setWinner (winnerSeat 0))
      else if score p1 <? score p2 then modify (setWinner (winnerSeat 1))
      else modify (setWinner tie)
  | _, _ => throwTypeError
  end.

Definition optNatEqb (a : nat) (b : option nat) : bool :=
  match b with
  | Some b' => (a =? b')%nat
  | None => false
  end.

Definition nextTurn : M unit :=
  modify (fun g => setCurrentPlayerIndex ((currentPlayerIndex g + 1) mod 2) g) ;;;
  resetRound ;;;
  g <- getState ;;
  if isFinalRound g then
    if optNatEqb (currentPlayerIndex g) (finalRoundTriggeredBy g) then endGame
    else ret tt
  else ret tt.

Definition checkWinCondition : M unit :=
  g <- getState ;;
  match getCurrentPlayer g with
  | None => throwTypeError
  | Some p =>
      if (10000 <=? score p) && negb (isFinalRound g) then
        modify (setIsFinalRound true) ;;;
        modify (setFinalRoundTriggeredBy (Some (currentPlayerIndex g)))
      else ret tt
  end.

Definition addScore (n : Z) (p : Player) : Player :=
  mkPlayer (id p) (name p) (score p + n) (connected p).

Inductive BankResult :=
| BankUndefined
| BankError (error : string)
| BankSuccess.

(** The part of [bank] after [scoreToAdd] is known. *)
Definition bankRound (scoreToAdd : Z) : M BankResult :=
  modify (fun g => setRoundAccumulatedScore (roundAccumulatedScore g + scoreToAdd) g) ;;;
  g <- getState ;;
  match getCurrentPlayer g with
  | None => throwTypeError
  | Some _ =>
      modify (setPlayers (updateAt (currentPlayerIndex g)
                            (addScore (roundAccumulatedScore g)) (players g))) ;;;
      checkWinCondition ;;;
      g' <- getState ;;
      (if negb (isStatus finished g') then nextTurn else ret tt) ;;;
      ret BankSuccess
  end.

Definition bank (playerId : string) : M BankResult :=
  fun g =>
    if negb (isStatus playing g) then Returned BankUndefined g
    else match getCurrentPlayer g with
         | None => Thrown g
         | Some p =>
             if negb (String.eqb (id p) playerId) then Returned BankUndefined g
             else
               let sel := filter selected (currentDice g) in
               let values := map value sel in
               if (0 <? length sel)%nat then
                 if isScoringSelection values DEFAULT_RULES
                 then bankRound (calculateScore values DEFAULT_RULES) g
                 else Returned (BankError "Invalid selection") g
               else if (0 <? length (currentDice g))%nat
                       && (roundAccumulatedScore g =? 0)
               then Returned (BankError "Cannot bank 0") g
               else bankRound 0 g
         end.

Definition farkle : M unit :=
  modify (setRoundAccumulatedScore 0) ;;; nextTurn.

(** ** Socket handlers *)

(** What the [bank] handler sends back to the caller alone:
    [if (res && res.error) socket.emit('error', res.error)]; otherwise the
    state is broadcast to the room. *)
Definition bankHandlerError (res : BankResult) : option string :=
  match res with
  | BankError e => Some e
  | BankUndefined | BankSuccess => None
  end.

(** What the [roll] handler sends back to the caller alone:
    [if (result.error) socket.emit('error', result.error)]. *)
Definition rollHandlerError (res : RollResult) : option string :=
  match res with
  | RollError e => Some e
  | RollSuccess _ _ _ _ => None
  end.

Inductive JoinResult := JoinError (error : string) | Joined.

Definition isNone {A : Type} (o : option A) : bool :=
  match o with
  | None => true
  | Some _ => false
  end.

(** The [join_game] handler of a room that exists. *)
Definition joinGame (socketId playerName : string) : M JoinResult :=
  fun g =>
    let byName := findIndex (fun p => String.eqb (name p) playerName) (players g) in
    (* takeover of a disconnected seat *)
    let disconnectedPlayer :=
      if isNone byName && (2 <=? length (players g))%nat
      then findIndex (fun p => negb (connected p)) (players g)
      else None in
    let g1 :=
      match disconnectedPlayer with
      | Some i =>
          setPlayers (updateAt i (fun _ => mkPlayer socketId playerName 0 true)
                        (players g)) g
      | None => g
      end in
    let existingPlayer :=
      match disconnectedPlayer with
      | Some i => Some i
      | None => byName
      end in
    if (2 <=? length (players g1))%nat && isNone existingPlayer
    then Returned (JoinError "Room Full") g1
    else
      let joined :=
        match existingPlayer with
        | Some i =>
            modify (fun g => setPlayers
                               (updateAt i (fun p => mkPlayer socketId (name p) (score p) true)
                                  (players g)) g) ;;; ret true
        | None => addPlayer socketId playerName
        end in
      (ok <- joined ;;
       if negb ok then ret (JoinError "Room Full")
       else
         g2 <- getState ;;
         (if (length (players g2) =? 2)%nat && isStatus waiting g2
          then start ;;; ret tt else ret tt) ;;;
         ret Joined) g1.

(** The [leave_game] and [disconnect] handlers, for one room. *)
Definition leaveGame (socketId : string) : M unit :=
  g <- getState ;;
  match findIndex (fun p => String.eqb (id p) socketId) (players g) with
  | Some i =>
      modify (fun g => setPlayers
                         (updateAt i (fun p => mkPlayer (id p) (name p) (score p) false)
                            (players g)) g) ;;;
      (if isStatus waiting g
       then modify (fun g => setPlayers
                               (filter (fun pl => negb (String.eqb (id pl) socketId))
                                  (players g)) g)
       else ret tt)
  | None => ret tt
  end.


Definition resetScore (p : Player) : Player :=
  mkPlayer (id p) (name p) 0 (connected p).

(** The [restart] handler; it answers whether it acted. *)
Definition restart : M bool :=
  g <- getState ;;
  if isStatus finished g then
    modify (setGameStatus playing) ;;;
    modify (fun g => setPlayers (map resetScore (players g)) g) ;;;
    modify (setCurrentPlayerIndex 0) ;;;
    resetRound ;;;
    modify (setIsFinalRound false) ;;;
    modify (setWinner noWinner) ;;;
    ret true
  else ret false.

(** ** Reachable states *)

Inductive Action :=
| AJoin (socketId playerName : string)
| ALeave (socketId : string)
| ARoll (socketId : string) (rng : Rng)
| AToggle (socketId dieId' : string)
| ABank (socketId : string)
| AFarkle
| ARestart.

Definition step (a : Action) (g : GameState) : GameState :=
  match a with
  | AJoin s n => stateOf (joinGame s n g)
  | ALeave s => stateOf (leaveGame s g)
  | ARoll s rng => stateOf (roll s rng g)
  | AToggle s d => stateOf (toggleSelection s d g)
  | ABank s => stateOf (bank s g)
  | AFarkle => stateOf (farkle g)
  | ARestart => stateOf (restart g)
  end.

Inductive reachable : GameState -> Prop :=
| reachable_new (room : string) : reachable (newGame room)
| reachable_step (a : Action) (g : GameState) :
    reachable g -> reachable (step a g).

(** ** States along a bank and the invariant of the round *)

(** The state after the seat has rotated and the round was reset. *)
Definition turned (g : GameState) : GameState :=
  setCurrentDice []
    (setDiceCountToRoll 6
       (setRoundAccumulatedScore 0
          (setCurrentPlayerIndex ((currentPlayerIndex g + 1) mod 2) g))).

(** The state once the round score went to the current player's total. *)
Definition banked (n : Z) (g : GameState) : GameState :=
  setPlayers
    (updateAt (currentPlayerIndex g) (addScore (roundAccumulatedScore g + n))
       (players g))
    (setRoundAccumulatedScore (roundAccumulatedScore g + n) g).

(** The state after [checkWinCondition], [p] being the current player. *)
Definition flagged (p : Player) (g : GameState) : GameState :=
  if (10000 <=? score p) && negb (isFinalRound g)
  then setFinalRoundTriggeredBy (Some (currentPlayerIndex g)) (setIsFinalRound true g)
  else g.

(** What an action other than a roll can do to the round: nothing to the
    number of dice, or a reset. *)
Definition roundKeptOrReset (g g' : GameState) : Prop :=
  (diceCountToRoll g' = diceCountToRoll g
   /\ length (currentDice g') = length (currentDice g))
  \/ (diceCountToRoll g' = 6%nat /\ currentDice g' = []).

(** The number of dice the next roll throws: the dice on the table that are
    not selected, or six when none are left or none were on the table. *)
Definition nextDiceCount (g : GameState) : nat :=
  if (0 <? length (currentDice g))%nat then
    let remaining :=
      (length (currentDice g) - length (filter selected (currentDice g)))%nat in
    if (remaining =? 0)%nat then 6%nat else remaining
  else 6%nat.

(** The invariant of the round: between one and six dice to roll, and the
    dice on the table, if any, are as many as were rolled. *)
Definition roundInvariant (g : GameState) : Prop :=
  (1 <= diceCountToRoll g <= 6)%nat
  /\ (length (currentDice g) = 0%nat \/ length (currentDice g) = diceCountToRoll g).

(** The current seat is 0 or 1; once the match has started there are two
    players; the final round is on only in a started match. *)
Definition seatsInvariant (g : GameState) : Prop :=
  (currentPlayerIndex g < 2)%nat
  /\ (gameStatus g <> waiting -> length (players g) = 2%nat)
  /\ (isFinalRound g = true -> gameStatus g <> waiting).

(** The round score and the totals are not negative. *)
Definition scoresInvariant (g : GameState) : Prop :=
  0 <= roundAccumulatedScore g /\ Forall (fun p => 0 <= score p) (players g).

(** A winner is recorded exactly in a finished match, and the match waits
    exactly while a seat is empty. *)
Definition statusInvariant (g : GameState) : Prop :=
  (gameStatus g = finished <-> winner g <> noWinner)
  /\ (gameStatus g = waiting <-> (length (players g) < 2)%nat).

(** In the final round the seat to play is not the one that triggered it. *)
Definition finalTurnInvariant (g : GameState) : Prop :=
  gameStatus g = playing -> isFinalRound g = true ->
  finalRoundTriggeredBy g = Some ((currentPlayerIndex g + 1) mod 2)%nat.

(** ** A match played to the end *)

(** The dice of a roll are named "0", "1", ... in the order rolled. *)
Definition dieName (i : nat) : string :=
  String (Ascii.ascii_of_nat (48 + i)) EmptyString.

(** A random source that rolls only 1s. *)
Definition allOnes : Rng := mkRng (fun _ => 0%nat) dieName.

(** The state after a sequence of actions. *)
Definition play (actions : list Action) (g : GameState) : GameState :=
  fold_left (fun g a => step a g) actions g.

(** The current player toggles each of the six dice once. *)
Definition selectAll (socketId : string) : list Action :=
  map (fun i => AToggle socketId (dieName i)) (seq 0 6).

(** Alice and Bob sit down at "Table 1"; the match starts. *)
Definition seated : GameState :=
  play [AJoin "a" "Alice"; AJoin "b" "Bob"] (newGame "Table 1").

(** Alice rolls six 1s. *)
Definition firstRoll : GameState := play [ARoll "a" allOnes] seated.

(** Alice selects all six and rolls again (hot dice): 5000 in the round and
    six fresh 1s on the table. *)
Definition hotDiceRoll : GameState :=
  play (selectAll "a" ++ [ARoll "a" allOnes]) firstRoll.

(** Alice selects all six again. *)
Definition beforeWinningBank : GameState := play (selectAll "a") hotDiceRoll.

(** Alice banks 10000: the final round starts and Bob is to play. *)
Definition finalRound : GameState := play [ABank "a"] beforeWinningBank.

(** Bob banks at once; the seat comes back to Alice and the match ends. *)
Definition finishedMatch : GameState := play [ABank "b"] finalRound.

(** A random source that rolls 2, 3, 4, 6, 6, 3: no die scores. *)
Definition bustRng : Rng :=
  mkRng (fun i => nth i [1; 2; 3; 5; 5; 2]%nat 0%nat) dieName.

(** After the six 1s, Alice keeps one of them (100 in the round) and rolls
    the five others: 2, 3, 4, 6, 6, a bust. *)
Definition bustRoll : GameState :=
  play [AToggle "a" "0"; ARoll "a" bustRng] firstRoll.

End Server.

(* ------------------------------------------------------------------ *)
(** * What the server shows: [getState] and the room list *)
(* ------------------------------------------------------------------ *)

Module Lobby.
Import Server.

(** The object that [getState()] sends to the clients: the state without
    [finalRoundTriggeredBy]. *)
Record Snapshot := mkSnapshot {
  roomCode : string;
  players : list Player;
  currentPlayerIndex : nat;
  roundAccumulatedScore : Z;
  diceCountToRoll : nat;
  currentDice : list Die;
  gameStatus : Status;
  winner : Winner;
  isFinalRound : bool
}.

Definition getState (g : GameState) : Snapshot :=
  mkSnapshot (Server.roomCode g) (Server.players g) (Server.currentPlayerIndex g)
    (Server.roundAccumulatedScore g) (Server.diceCountToRoll g)
    (Server.currentDice g) (Server.gameStatus g) (Server.winner g)
    (Server.isFinalRound g).






End Lobby.

(* ------------------------------------------------------------------ *)
(** * The client: [public/client.js] *)
(* ------------------------------------------------------------------ *)

Module Client.
Import Server.

(** The controls that [renderControls] writes: the two buttons, the action
    text, and the two numbers of the score display (the score of the
    selection and the round total). *)
Record Controls := mkControls {
  rollDisabled : bool;
  rollText : string;
  bankDisabled : bool;
  actionText : string;
  currentScoreDisplay : Z * Z
}.

Definition setRollDisabled (v : bool) (ui : Controls) : Controls :=
  mkControls v (rollText ui) (bankDisabled ui) (actionText ui) (currentScoreDisplay ui).

Definition setRollText (v : string) (ui : Controls) : Controls :=
  mkControls (rollDisabled ui) v (bankDisabled ui) (actionText ui) (currentScoreDisplay ui).

Definition setBankDisabled (v : bool) (ui : Controls) : Controls :=
  mkControls (rollDisabled ui) (rollText ui) v (actionText ui) (currentScoreDisplay ui).

Definition setActionText (v : string) (ui : Controls) : Controls :=
  mkControls (rollDisabled ui) (rollText ui) (bankDisabled ui) v (currentScoreDisplay ui).

Definition setCurrentScoreDisplay (v : Z * Z) (ui : Controls) : Controls :=
  mkControls (rollDisabled ui) (rollText ui) (bankDisabled ui) (actionText ui) v.

(** [canInteract()], as the truth value of what it returns; [gameState] is
    the last state received, [None] before the first one. *)
Definition canInteract (socketId : string) (gameState : option Lobby.Snapshot) : bool :=
  match gameState with
  | None => false
  | Some st =>
      match Lobby.gameStatus st with
      | playing =>
          match nth_error (Lobby.players st) (Lobby.currentPlayerIndex st) with
          | Some currentPlayer => String.eqb (id currentPlayer) socketId
          | None => false
          end
      | _ => false
      end
  end.

(** [players[currentPlayerIndex]?.name || "Someone"]. *)
Definition currentPlayerName (st : Lobby.Snapshot) : string :=
  match nth_error (Lobby.players st) (Lobby.currentPlayerIndex st) with
  | Some p => if String.eqb (name p) EmptyString then "Someone" else name p
  | None => "Someone"
  end.

Definition renderControls (socketId : string) (gameState : option Lobby.Snapshot)
    (ui : Controls) : Controls :=
  match gameState with
  | None => ui
  | Some st =>
      let isMyTurn := canInteract socketId gameState in
      let selectedDice := filter selected (Lobby.currentDice st) in
      let selectedScore := calculateScore (map value selectedDice) DEFAULT_RULES in
      let totalRound := Lobby.roundAccumulatedScore st + selectedScore in
      let ui := setCurrentScoreDisplay (selectedScore, totalRound) ui in
      if negb isMyTurn then
        setRollText "Roll"
          (setActionText ("Waiting for " ++ currentPlayerName st ++ "...")
             (setBankDisabled true (setRollDisabled true ui)))
      else
        let ui := setActionText "Your turn" ui in
        let hasSelected := (0 <? length selectedDice)%nat in
        if (length (Lobby.currentDice st) =? 0)%nat then
          setBankDisabled true (setRollText "Roll Dice" (setRollDisabled false ui))
        else
          let ui :=
            if hasSelected then
              setBankDisabled false
                (setRollText "Roll Remaining" (setRollDisabled false ui))
            else
              setActionText "Select dice to continue"
                (setBankDisabled true (setRollDisabled true ui)) in
          if (0 <? length (Lobby.currentDice st))%nat
             && (length selectedDice =? length (Lobby.currentDice st))%nat
          then setRollText "Roll Hot Dice!" ui
          else ui
  end.

End Client.

(* ================================================================== *)
(** * Properties of the scoring engine *)
(* ================================================================== *)

(** ** Scores of some selections under the default rules *)

Example score_empty : calculateScore [] DEFAULT_RULES = 0.
Proof. reflexivity. Qed.

Example score_six_ones : calculateScore [1;1;1;1;1;1]%nat DEFAULT_RULES = 5000.
Proof. reflexivity. Qed.

Example score_triple_twos : calculateScore [2;2;2]%nat DEFAULT_RULES = 200.
Proof. reflexivity. Qed.

Example score_pair_of_twos : calculateScore [2;2]%nat DEFAULT_RULES = 0.
Proof. reflexivity. Qed.

Example score_one_and_five : calculateScore [1;5]%nat DEFAULT_RULES = 150.
Proof. reflexivity. Qed.

Example score_straight : calculateScore [1;2;3;4;5;6]%nat DEFAULT_RULES = 1500.
Proof. reflexivity. Qed.

Example score_1115 : calculateScore [1;1;1;5]%nat DEFAULT_RULES = 1050.
Proof. reflexivity. Qed.

Example score_five_ones : calculateScore [1;1;1;1;1]%nat DEFAULT_RULES = 0.
Proof. reflexivity. Qed.

Example score_four_twos : calculateScore [2;2;2;2]%nat DEFAULT_RULES = 2000.
Proof. reflexivity. Qed.

Example score_four_ones : calculateScore [1;1;1;1]%nat DEFAULT_RULES = 2100.
Proof. reflexivity. Qed.

Example score_three_pairs : calculateScore [2;3;2;4;3;4]%nat DEFAULT_RULES = 1500.
Proof. reflexivity. Qed.

Example score_two_triplets : calculateScore [2;3;2;3;3;2]%nat DEFAULT_RULES = 2500.
Proof. reflexivity. Qed.

Example bust_example : hasPossibleMoves [2;3;4;6;6;3]%nat DEFAULT_RULES = false.
Proof. reflexivity. Qed.

(** ** The counts object of valid dice *)

(** Splits a tally into the 64 cases "face absent / face present". *)
Ltac split_tally t :=
  destruct t as [[|?a] [|?b] [|?c] [|?d] [|?e] [|?f]].

(** Enumerates a face known to lie in 1..6. *)
Ltac face_cases d H :=
  destruct d as [|[|[|[|[|[|[|?]]]]]]]; [lia | | | | | | | lia]; clear H.

Lemma set_canon (d : nat) (t : Tally) :
  (1 <= d <= 6)%nat ->
  set (canon t) d (getOr0 (canon t) d + 1)%nat = canon (bump d t).
Proof.
  intros Hd. face_cases d Hd; split_tally t; reflexivity.
Qed.

Lemma tally_snoc (l : list nat) (d : nat) :
  (1 <= d <= 6)%nat -> tally (l ++ [d]) = bump d (tally l).
Proof.
  intros Hd. unfold tally, cnt. rewrite !count_occ_app.
  face_cases d Hd; cbn; f_equal; lia.
Qed.

Lemma countDice_snoc (l : list nat) (d : nat) :
  countDice (l ++ [d]) = set (countDice l) d (getOr0 (countDice l) d + 1)%nat.
Proof.
  unfold countDice. now rewrite fold_left_app.
Qed.

(** On valid dice the counts object is the canonical one of the tally. *)
Lemma countDice_canon (dice : list nat) :
  validFaces dice -> countDice dice = canon (tally dice).
Proof.
  induction dice as [|d l IH] using rev_ind; intros Hv.
  - reflexivity.
  - apply Forall_app in Hv as [Hl Hd]. inversion Hd; subst.
    rewrite countDice_snoc, IH, tally_snoc, set_canon by assumption.
    reflexivity.
Qed.

Lemma length_total (dice : list nat) :
  validFaces dice -> length dice = total (tally dice).
Proof.
  induction dice as [|d l IH]; intros Hv.
  - reflexivity.
  - inversion Hv as [|? ? Hd Hl]; subst. cbn [length]. rewrite (IH Hl).
    unfold total, tally, cnt. cbn [count_occ n1 n2 n3 n4 n5 n6].
    face_cases d Hd; cbn; lia.
Qed.

(** ** Reading the canonical counts object *)

Lemma get_canon (t : Tally) (k : nat) :
  (1 <= k <= 6)%nat ->
  get (canon t) k = if (faceCount t k =? 0)%nat then None else Some (faceCount t k).
Proof.
  intros Hk. face_cases k Hk; split_tally t; reflexivity.
Qed.

Lemma getOr0_canon (t : Tally) (k : nat) :
  (1 <= k <= 6)%nat -> getOr0 (canon t) k = faceCount t k.
Proof.
  intros Hk. unfold getOr0. rewrite get_canon by assumption.
  destruct (faceCount t k); reflexivity.
Qed.

Lemma truthy_canon (t : Tally) (k : nat) :
  (1 <= k <= 6)%nat -> truthy (canon t) k = (0 <? faceCount t k)%nat.
Proof.
  intros Hk. unfold truthy. rewrite get_canon by assumption.
  destruct (faceCount t k); reflexivity.
Qed.

Lemma countIs_canon (t : Tally) (k n : nat) :
  (1 <= k <= 6)%nat -> (0 < n)%nat ->
  countIs (canon t) k n = (faceCount t k =? n)%nat.
Proof.
  intros Hk Hn. unfold countIs. rewrite get_canon by assumption.
  destruct (faceCount t k); [|reflexivity].
  destruct n; [lia | reflexivity].
Qed.

Lemma countGe_canon (t : Tally) (k n : nat) :
  (1 <= k <= 6)%nat -> (0 < n)%nat ->
  countGe (canon t) k n = (n <=? faceCount t k)%nat.
Proof.
  intros Hk Hn. unfold countGe. rewrite get_canon by assumption.
  destruct (faceCount t k); [|reflexivity].
  destruct n; [lia | reflexivity].
Qed.

Lemma countGt_canon (t : Tally) (k n : nat) :
  (1 <= k <= 6)%nat ->
  countGt (canon t) k n = (n <? faceCount t k)%nat.
Proof.
  intros Hk. unfold countGt. rewrite get_canon by assumption.
  destruct (faceCount t k); [|reflexivity].
  destruct n; reflexivity.
Qed.

Lemma keys_canon (t : Tally) : length (keys (canon t)) = distinctFaces t.
Proof. split_tally t; reflexivity. Qed.

Lemma values_canon_all (m : nat) (t : Tally) :
  forallb (fun c => (c =? m)%nat) (values (canon t)) = allPresentAre m t.
Proof.
  unfold allPresentAre.
  destruct m; split_tally t; cbn; rewrite ?andb_true_r, ?andb_assoc; reflexivity.
Qed.

(** With exactly two faces present, [vals[0] === 3 && vals[1] === 3] says
    that both occur three times. *)
Lemma values_canon_two (t : Tally) :
  distinctFaces t = 2%nat ->
  (let vals := values (canon t) in nthIs vals 0 3 && nthIs vals 1 3)
  = allPresentAre 3 t.
Proof.
  unfold allPresentAre.
  split_tally t; cbn; intros H; try discriminate H;
    rewrite ?andb_true_r, ?andb_assoc; reflexivity.
Qed.

(** ** Moving a statement about dice to their tally *)

(** Rewrites the counts object and the length of valid dice [dice] into the
    canonical counts and the total of [tally dice]. *)
Ltac tally_form dice Hv :=
  rewrite ?(countDice_canon dice Hv), ?(length_total dice Hv) in *.

(** The three functions depend on the tally only; in particular the score
    does not depend on the order of the dice. *)
Lemma calculateScore_tally (a b : list nat) (rules : Rules) :
  validFaces a -> validFaces b -> tally a = tally b ->
  calculateScore a rules = calculateScore b rules.
Proof.
  intros Ha Hb E. unfold calculateScore.
  rewrite (countDice_canon a Ha), (countDice_canon b Hb).
  rewrite (length_total a Ha), (length_total b Hb), E. reflexivity.
Qed.

Lemma calculateScore_permutation (a b : list nat) (rules : Rules) :
  validFaces a -> Permutation a b ->
  calculateScore a rules = calculateScore b rules.
Proof.
  intros Ha Hp.
  assert (Hb : validFaces b) by (unfold validFaces; rewrite <- Hp; exact Ha).
  apply calculateScore_tally; try assumption.
  unfold tally, cnt.
  now rewrite !(proj1 (Permutation_count_occ Nat.eq_dec a b) Hp).
Qed.

(** Evaluates the list and counting part of a score and leaves the
    arithmetic on point values to [lia]. *)
Ltac score_eval := cbn -[Z.add Z.mul Z.sub Z.ltb Z.eqb Z.of_nat].

(** Case analysis on the feature toggles that guard the goal. *)
Ltac toggle_cases :=
  repeat match goal with
         | |- context [andb (?p ?r) _] => is_var r; destruct (p r) eqn:?; score_eval
         | |- context [if (?p ?r) then _ else _] =>
             is_var r; destruct (p r) eqn:?; score_eval
         end.

(** Scores of the smallest selections, for every rule configuration. *)
Lemma score_one_1 (rules : Rules) : calculateScore [1%nat] rules = single1 rules.
Proof. score_eval. toggle_cases; lia. Qed.

Lemma score_one_5 (rules : Rules) : calculateScore [5%nat] rules = single5 rules.
Proof. score_eval. toggle_cases; lia. Qed.

Lemma score_triple (rules : Rules) (f : nat) :
  (1 <= f <= 6)%nat -> calculateScore [f; f; f] rules = tripleValueOf rules f.
Proof.
  intros Hf. face_cases f Hf; score_eval; toggle_cases; lia.
Qed.

(** Turns boolean tests on counts in the hypotheses into propositions. *)
Ltac bool_facts :=
  repeat match goal with
         | H : (_ || _) = false |- _ => apply orb_false_iff in H; destruct H
         | H : (_ && _) = true |- _ => apply andb_true_iff in H; destruct H
         | H : negb _ = true |- _ => apply negb_true_iff in H
         | H : negb _ = false |- _ => apply negb_false_iff in H
         | H : (_ =? _)%nat = true |- _ => apply Nat.eqb_eq in H
         | H : (_ =? _)%nat = false |- _ => apply Nat.eqb_neq in H
         | H : (_ <=? _)%nat = true |- _ => apply Nat.leb_le in H
         | H : (_ <=? _)%nat = false |- _ => apply Nat.leb_gt in H
         | H : (_ <? _)%nat = true |- _ => apply Nat.ltb_lt in H
         | H : (_ <? _)%nat = false |- _ => apply Nat.ltb_ge in H
         | H : false = true |- _ => discriminate H
         | H : true = false |- _ => discriminate H
         end.

(** Rewrites every read of the canonical counts object into a test on the
    tally. *)
Ltac canon_reads :=
  cbn [existsb forallb] in *;
  rewrite ?countGt_canon, ?countGe_canon, ?countIs_canon, ?truthy_canon,
    ?getOr0_canon, ?keys_canon, ?values_canon_all in * by lia;
  cbn [faceCount] in *.

(** ** Shape of a roll without any move *)

Lemma noMoves_shape (dice : list nat) (rules : Rules) :
  validFaces dice ->
  hasPossibleMoves dice rules = false ->
  let t := tally dice in
  n1 t = 0%nat /\ n5 t = 0%nat
  /\ (n2 t <= 2)%nat /\ (n3 t <= 2)%nat /\ (n4 t <= 2)%nat /\ (n6 t <= 2)%nat
  /\ (enableThreePairs rules = true -> total t = 6%nat -> allPresentAre 2 t = false).
Proof.
  intros Hv H. unfold hasPossibleMoves in H. tally_form dice Hv.
  revert H. generalize (tally dice). intros t H. cbn zeta.
  canon_reads.
  repeat match type of H with
         | (if ?c then _ else _) = _ => destruct c eqn:?; try discriminate H
         end.
  - bool_facts. unfold total in *. repeat split; try lia.
  - bool_facts. repeat split; try lia.
    intros E T. rewrite E, T in *. cbn in *. assumption.
Qed.

(** ** Sub-selections *)

Lemma subMultiset_valid (s d : list nat) :
  validFaces d -> subMultiset s d -> validFaces s.
Proof.
  unfold validFaces. rewrite !Forall_forall. intros Hd Hs x Hx.
  apply Hd. apply (count_occ_In Nat.eq_dec).
  apply (count_occ_In Nat.eq_dec) in Hx.
  specialize (Hs x). unfold cnt in Hs. lia.
Qed.

Lemma subMultiset_refl (d : list nat) : subMultiset d d.
Proof. intros f. lia. Qed.

(** A selection of 2s, 3s, 4s and 6s with no face three times scores only
    as three pairs. *)
Lemma low_selection_score (s : list nat) (rules : Rules) :
  validFaces s ->
  let t := tally s in
  n1 t = 0%nat -> n5 t = 0%nat ->
  (n2 t <= 2)%nat -> (n3 t <= 2)%nat -> (n4 t <= 2)%nat -> (n6 t <= 2)%nat ->
  calculateScore s rules = 0
  \/ (enableThreePairs rules = true /\ total t = 6%nat /\ allPresentAre 2 t = true
      /\ calculateScore s rules = threePairs rules).
Proof.
  intros Hv. unfold calculateScore. tally_form s Hv.
  generalize (tally s). intros [a b c d e f]. cbn [n1 n2 n3 n4 n5 n6].
  intros -> -> Hb Hc Hd Hf.
  destruct b as [|[|[|b]]]; try lia;
  destruct c as [|[|[|c]]]; try lia;
  destruct d as [|[|[|d]]]; try lia;
  destruct f as [|[|[|f]]]; try lia;
  clear; score_eval; toggle_cases;
  first [ left; lia | right; repeat split; reflexivity ].
Qed.

Lemma cnt_single_le (f k : nat) (d : list nat) :
  (1 <= cnt k d)%nat -> (cnt f [k] <= cnt f d)%nat.
Proof.
  intros H. unfold cnt in *. cbn. destruct (Nat.eq_dec k f); subst; lia.
Qed.

Lemma cnt_triple_le (f k : nat) (d : list nat) :
  (3 <= cnt k d)%nat -> (cnt f [k; k; k] <= cnt f d)%nat.
Proof.
  intros H. unfold cnt in *. cbn. destruct (Nat.eq_dec k f); subst; lia.
Qed.

(** A roll with a move has a sub-selection that scores. *)
Lemma moves_give_selection (dice : list nat) (rules : Rules) :
  validFaces dice -> positiveValues rules ->
  hasPossibleMoves dice rules = true ->
  exists s, s <> [] /\ subMultiset s dice /\ 0 < calculateScore s rules.
Proof.
  intros Hv (P1 & P5 & P2 & P3 & P4 & P6 & PP) H.
  destruct (tally dice) as [a b c d e f] eqn:Ht.
  assert (Hc : cnt 1 dice = a /\ cnt 2 dice = b /\ cnt 3 dice = c
               /\ cnt 4 dice = d /\ cnt 5 dice = e /\ cnt 6 dice = f)
    by (unfold tally in Ht; injection Ht; intros; repeat split; assumption).
  destruct Hc as (C1 & C2 & C3 & C4 & C5 & C6).
  destruct a as [|a].
  2:{ exists [1%nat]. split; [discriminate|]. split.
      - intros k. apply cnt_single_le. lia.
      - rewrite score_one_1. assumption. }
  destruct e as [|e].
  2:{ exists [5%nat]. split; [discriminate|]. split.
      - intros k. apply cnt_single_le. lia.
      - rewrite score_one_5. assumption. }
  destruct b as [|[|[|b]]].
  4:{ exists [2; 2; 2]%nat. split; [discriminate|]. split.
      - intros k. apply cnt_triple_le. lia.
      - rewrite score_triple by lia. assumption. }
  all: destruct c as [|[|[|c]]].
  all: try solve [ exists [3; 3; 3]%nat; split; [discriminate|]; split;
                   [ intros k; apply cnt_triple_le; lia
                   | rewrite score_triple by lia; assumption ] ].
  all: destruct d as [|[|[|d]]].
  all: try solve [ exists [4; 4; 4]%nat; split; [discriminate|]; split;
                   [ intros k; apply cnt_triple_le; lia
                   | rewrite score_triple by lia; assumption ] ].
  all: destruct f as [|[|[|f]]].
  all: try solve [ exists [6; 6; 6]%nat; split; [discriminate|]; split;
                   [ intros k; apply cnt_triple_le; lia
                   | rewrite score_triple by lia; assumption ] ].
  (* what is left has no 1, no 5 and no face three times: only three pairs *)
  all: exists dice; split;
    [ intros ->; discriminate H
    | split; [apply subMultiset_refl|] ].
  all: pose proof (low_selection_score dice rules Hv) as L; rewrite Ht in L;
    cbn [n1 n2 n3 n4 n5 n6] in L;
    specialize (L eq_refl eq_refl ltac:(lia) ltac:(lia) ltac:(lia) ltac:(lia)).
  all: destruct L as [L | (E & _ & _ & L)]; [| rewrite L; auto].
  all: exfalso; revert H L; unfold hasPossibleMoves, calculateScore;
    tally_form dice Hv; rewrite Ht; clear - PP; score_eval; toggle_cases;
    intros; try discriminate;
    try specialize (PP eq_refl); try specialize (PP ltac:(assumption)); lia.
Qed.

Lemma tally_le (s d : list nat) :
  subMultiset s d ->
  (n1 (tally s) <= n1 (tally d) /\ n2 (tally s) <= n2 (tally d)
   /\ n3 (tally s) <= n3 (tally d) /\ n4 (tally s) <= n4 (tally d)
   /\ n5 (tally s) <= n5 (tally d) /\ n6 (tally s) <= n6 (tally d))%nat.
Proof.
  intros H. cbn. repeat split; apply H.
Qed.

(** A roll of at most six dice without a move has no scoring sub-selection,
    whatever the point values. *)
Lemma no_moves_no_selection (dice s : list nat) (rules : Rules) :
  validFaces dice -> (length dice <= 6)%nat ->
  hasPossibleMoves dice rules = false ->
  subMultiset s dice -> calculateScore s rules = 0.
Proof.
  intros Hv Hlen Hno Hsub.
  pose proof (subMultiset_valid s dice Hv Hsub) as Hvs.
  pose proof (noMoves_shape dice rules Hv Hno) as (D1 & D5 & D2 & D3 & D4 & D6 & DP).
  pose proof (tally_le s dice Hsub) as (L1 & L2 & L3 & L4 & L5 & L6).
  pose proof (low_selection_score s rules Hvs) as Low. cbn zeta in Low.
  specialize (Low ltac:(lia) ltac:(lia) ltac:(lia) ltac:(lia) ltac:(lia) ltac:(lia)).
  destruct Low as [Z0 | (E & T & A & _)]; [assumption|].
  exfalso.
  rewrite (length_total dice Hv) in Hlen.
  assert (Heq : tally s = tally dice).
  { unfold total in *.
    destruct (tally s) as [a b c d e f], (tally dice) as [a' b' c' d' e' f'].
    cbn [n1 n2 n3 n4 n5 n6] in *. f_equal; lia. }
  rewrite Heq in *. rewrite (DP E T) in A. discriminate A.
Qed.

(** C2, as stated, fails for a rule configuration whose single 1 is worth 0:
    [hasPossibleMoves] answers true on the roll [1] (it never looks at the
    point values), although no non-empty sub-multiset of that roll scores
    more than 0. *)
Lemma hasPossibleMoves_ignores_values :
  validFaces [1%nat] /\ (length [1%nat] <= 6)%nat
  /\ ~ (hasPossibleMoves [1%nat] worthlessOnes = true <->
        exists s, s <> [] /\ subMultiset s [1%nat]
                  /\ 0 < calculateScore s worthlessOnes).
Proof.
  assert (Hv : validFaces [1%nat]) by (repeat constructor).
  split; [exact Hv|]. split; [cbn; lia|].
  intros [H _]. destruct (H eq_refl) as (s & Hne & Hsub & Hpos).
  pose proof (subMultiset_valid s _ Hv Hsub) as Hvs.
  pose proof (tally_le s _ Hsub) as (L1 & L2 & L3 & L4 & L5 & L6).
  revert Hpos. unfold calculateScore. tally_form s Hvs.
  revert L1 L2 L3 L4 L5 L6. generalize (tally s). intros [a b c d e f].
  cbn. intros.
  assert (b = 0 /\ c = 0 /\ d = 0 /\ e = 0 /\ f = 0)%nat as (-> & -> & -> & -> & ->)
    by lia.
  destruct a as [|[|a]]; [| | lia]; vm_compute in Hpos; discriminate Hpos.
Qed.

(** C2 (amended): for every roll of at most six dice with faces 1..6 and
    every rule configuration whose values single1, single5, triple2, triple3,
    triple4, triple6 are positive and whose threePairs value is positive when
    three pairs are enabled, [hasPossibleMoves] is true exactly when some
    non-empty sub-multiset of the roll scores more than 0 under
    [calculateScore]; on the empty roll it is false. *)
Theorem hasPossibleMoves_iff_scoring_selection (dice : list nat) (rules : Rules) :
  validFaces dice -> (length dice <= 6)%nat -> positiveValues rules ->
  (hasPossibleMoves dice rules = true <->
     exists s, s <> [] /\ subMultiset s dice /\ 0 < calculateScore s rules)
  /\ hasPossibleMoves [] rules = false.
Proof.
  intros Hv Hlen Hpos. split; [split|reflexivity].
  - apply moves_give_selection; assumption.
  - intros (s & _ & Hsub & Hs).
    destruct (hasPossibleMoves dice rules) eqn:Hm; [reflexivity|].
    rewrite (no_moves_no_selection dice s rules Hv Hlen Hm Hsub) in Hs. lia.
Qed.

Lemma hasPossibleMoves_iff_scoring_selection_witness :
  (hasPossibleMoves [2; 2; 3; 3; 4; 4]%nat DEFAULT_RULES = true <->
     exists s, s <> [] /\ subMultiset s [2; 2; 3; 3; 4; 4]%nat
               /\ 0 < calculateScore s DEFAULT_RULES)
  /\ hasPossibleMoves [] DEFAULT_RULES = false.
Proof.
  apply (hasPossibleMoves_iff_scoring_selection [2; 2; 3; 3; 4; 4]%nat DEFAULT_RULES).
  - repeat constructor.
  - cbn; lia.
  - unfold positiveValues; cbn; repeat split; lia.
Defined.

(** ** Scores are not negative when the point values are not *)

Lemma tripleValueOf_nonneg (rules : Rules) (face : nat) :
  nonNegativeValues rules -> 0 <= tripleValueOf rules face.
Proof.
  intros H. unfold nonNegativeValues in H.
  destruct face as [|[|[|[|[|[|[|?]]]]]]]; cbn; lia.
Qed.

Lemma faceScore_nonneg (rules : Rules) (face count : nat) :
  nonNegativeValues rules -> 0 <= faceScore rules face count.
Proof.
  intros H. pose proof (tripleValueOf_nonneg rules face H) as Ht.
  unfold nonNegativeValues in H. unfold faceScore, orElse.
  repeat match goal with
         | |- context [if ?c then _ else _] => destruct c eqn:?
         end; bool_facts; subst; try lia; nia.
Qed.

Lemma calculateScore_nonneg (dice : list nat) (rules : Rules) :
  nonNegativeValues rules -> 0 <= calculateScore dice rules.
Proof.
  intros H. unfold calculateScore. cbn zeta.
  repeat match goal with
         | |- context [if ?c then _ else _] => destruct c
         end; try (unfold nonNegativeValues in H; lia).
  unfold countingScore. cbn [fold_left].
  generalize (countDice dice). intros c.
  pose proof (faceScore_nonneg rules 1 (getOr0 c 1) H).
  pose proof (faceScore_nonneg rules 2 (getOr0 c 2) H).
  pose proof (faceScore_nonneg rules 3 (getOr0 c 3) H).
  pose proof (faceScore_nonneg rules 4 (getOr0 c 4) H).
  pose proof (faceScore_nonneg rules 5 (getOr0 c 5) H).
  pose proof (faceScore_nonneg rules 6 (getOr0 c 6) H).
  lia.
Qed.

(** ** The shapes, read on the tally *)

Lemma cnt_tally (dice : list nat) (f : nat) :
  validFaces dice -> cnt f dice = faceCount (tally dice) f.
Proof.
  intros Hv.
  destruct f as [|[|[|[|[|[|[|f]]]]]]]; try reflexivity; cbn [faceCount];
    apply count_occ_not_In; intros Hin;
    unfold validFaces in Hv; rewrite Forall_forall in Hv;
    specialize (Hv _ Hin); lia.
Qed.

Lemma in_tally (dice : list nat) (f : nat) :
  validFaces dice ->
  (In f dice <-> (1 <= f <= 6)%nat /\ (0 < faceCount (tally dice) f)%nat).
Proof.
  intros Hv. rewrite (count_occ_In Nat.eq_dec). fold (cnt f dice).
  rewrite (cnt_tally dice f Hv). split.
  - intros H. split; [|lia].
    destruct f as [|[|[|[|[|[|[|f]]]]]]]; cbn [faceCount] in H; lia.
  - intros [_ H]. lia.
Qed.

Lemma sameFaces_tally (dice l : list nat) :
  validFaces dice -> validFaces l ->
  (sameFaces dice l <-> tally dice = tally l).
Proof.
  intros Hd Hl. split.
  - intros H. unfold tally. now rewrite !H.
  - intros H f. rewrite (cnt_tally dice f Hd), (cnt_tally l f Hl). now rewrite H.
Qed.

(** A property of every face present, as six facts on the tally. *)
Lemma faces_tally (P : nat -> nat -> Prop) (dice : list nat) :
  validFaces dice ->
  ((forall f, In f dice -> P f (cnt f dice)) <->
   (forall k, (1 <= k <= 6)%nat -> (0 < faceCount (tally dice) k)%nat ->
              P k (faceCount (tally dice) k))).
Proof.
  intros Hv. split.
  - intros H k Hk Hc. rewrite <- (cnt_tally dice k Hv). apply H.
    apply (in_tally dice k Hv). auto.
  - intros H f Hin. apply (in_tally dice f Hv) in Hin as [Hk Hc].
    rewrite (cnt_tally dice f Hv). auto.
Qed.

Lemma allPresentAre_faces (m : nat) (t : Tally) :
  allPresentAre m t = true <->
  (forall k, (1 <= k <= 6)%nat -> (0 < faceCount t k)%nat -> faceCount t k = m).
Proof.
  unfold allPresentAre. split.
  - intros H k Hk Hc. bool_facts.
    repeat match goal with
           | H : _ || _ = true |- _ => apply orb_true_iff in H; destruct H
           end; bool_facts;
    face_cases k Hk; cbn [faceCount] in *; lia.
  - intros H.
    pose proof (H 1%nat ltac:(lia)). pose proof (H 2%nat ltac:(lia)).
    pose proof (H 3%nat ltac:(lia)). pose proof (H 4%nat ltac:(lia)).
    pose proof (H 5%nat ltac:(lia)). pose proof (H 6%nat ltac:(lia)).
    cbn [faceCount] in *.
    repeat (apply andb_true_iff; split); apply orb_true_iff;
      match goal with
      | |- (?x =? 0)%nat = true \/ _ =>
          destruct (Nat.eqb_spec x 0); [left; reflexivity | right; apply Nat.eqb_eq; lia]
      end.
Qed.

Lemma threePairsShape_tally (dice : list nat) :
  validFaces dice -> (threePairsShape dice <-> pairsTally (tally dice)).
Proof.
  intros Hv. unfold threePairsShape, pairsTally.
  rewrite (faces_tally (fun _ c => c = 2%nat) dice Hv), allPresentAre_faces.
  rewrite (length_total dice Hv). reflexivity.
Qed.

Lemma twoTripletsShape_tally (dice : list nat) :
  validFaces dice -> (twoTripletsShape dice <-> tripletsTally (tally dice)).
Proof.
  intros Hv. unfold twoTripletsShape, tripletsTally.
  rewrite (faces_tally (fun _ c => c = 3%nat) dice Hv), allPresentAre_faces.
  rewrite (length_total dice Hv). reflexivity.
Qed.

Lemma everyFaceContributes_tally (dice : list nat) :
  validFaces dice -> (everyFaceContributes dice <-> contributingTally (tally dice)).
Proof.
  intros Hv. unfold everyFaceContributes, contributingTally.
  rewrite (faces_tally (fun f c => f = 1 \/ f = 5 \/ 3 <= c)%nat dice Hv).
  generalize (tally dice). intros t. split.
  - intros H.
    pose proof (H 2%nat ltac:(lia)). pose proof (H 3%nat ltac:(lia)).
    pose proof (H 4%nat ltac:(lia)). pose proof (H 6%nat ltac:(lia)).
    cbn [faceCount] in *. lia.
  - intros H k Hk Hc. face_cases k Hk; cbn [faceCount] in *; lia.
Qed.

Lemma wholeSetPattern_tally (dice : list nat) (rules : Rules) :
  validFaces dice ->
  (wholeSetPattern dice rules <->
   tally dice = mkTally 1 1 1 1 1 1
   \/ (enableThreePairs rules = true /\ pairsTally (tally dice))
   \/ (enableTwoTriplets rules = true /\ tripletsTally (tally dice))
   \/ (enable5Straight rules = true
       /\ (tally dice = mkTally 1 1 1 1 1 0 \/ tally dice = mkTally 0 1 1 1 1 1))
   \/ (enable4Straight rules = true
       /\ (tally dice = mkTally 1 1 1 1 0 0 \/ tally dice = mkTally 0 1 1 1 1 0
           \/ tally dice = mkTally 0 0 1 1 1 1))).
Proof.
  intros Hv.
  unfold wholeSetPattern, fullStraightShape, fiveStraightShape, fourStraightShape.
  rewrite (threePairsShape_tally dice Hv), (twoTripletsShape_tally dice Hv).
  rewrite !(sameFaces_tally dice) by (assumption || (repeat constructor)).
  reflexivity.
Qed.

(** ** The selection check follows the specification *)

Lemma present_spec (x : nat) :
  (x = 0 /\ present x = 0)%nat \/ (0 < x /\ present x = 1)%nat.
Proof. destruct x; cbn; lia. Qed.

(** Brings in what [present] says of every count in sight. *)
Ltac present_cases :=
  unfold distinctFaces in *; cbn [n1 n2 n3 n4 n5 n6] in *;
  repeat match goal with
         | H : context [present ?x] |- _ =>
             lazymatch goal with
             | _ : (x = 0 /\ present x = 0)%nat \/ _ |- _ => fail
             | _ => pose proof (present_spec x)
             end
         end.

Ltac or_facts :=
  repeat match goal with
         | H : _ || _ = true |- _ => apply orb_true_iff in H; destruct H
         end.

(** The loop over the faces accepts a selection in which 2s, 3s, 4s and 6s
    are absent or tripled. *)
Lemma face_loop_true (t : Tally) :
  faceLoop t = true <-> contributingTally t.
Proof.
  unfold contributingTally, faceLoop. destruct t as [a b c d e f]. cbn [n1 n2 n3 n4 n5 n6].
  destruct (Nat.ltb_spec 0 a), (Nat.ltb_spec 0 e);
  destruct (Nat.ltb_spec 0 b), (Nat.ltb_spec b 3);
  destruct (Nat.ltb_spec 0 c), (Nat.ltb_spec c 3);
  destruct (Nat.ltb_spec 0 d), (Nat.ltb_spec d 3);
  destruct (Nat.ltb_spec 0 f), (Nat.ltb_spec f 3);
  cbn; split; intros; try reflexivity; try discriminate; lia.
Qed.

Lemma triplets_contribute (t : Tally) :
  allPresentAre 3 t = true -> contributingTally t.
Proof.
  rewrite allPresentAre_faces. intros H.
  pose proof (H 2%nat ltac:(lia)). pose proof (H 3%nat ltac:(lia)).
  pose proof (H 4%nat ltac:(lia)). pose proof (H 6%nat ltac:(lia)).
  unfold contributingTally. cbn [faceCount] in *. lia.
Qed.

Lemma selection_cascade (dice : list nat) (rules : Rules) :
  validFaces dice -> calculateScore dice rules <> 0 ->
  (isScoringSelection dice rules = true <-> everyDieContributes dice rules).
Proof.
  intros Hv Hz. unfold isScoringSelection. cbn zeta.
  apply Z.eqb_neq in Hz. rewrite Hz. clear Hz.
  unfold everyDieContributes.
  rewrite (wholeSetPattern_tally dice rules Hv), (everyFaceContributes_tally dice Hv).
  tally_form dice Hv. generalize (tally dice). clear. intros t.
  canon_reads. cbn [Nat.eqb orb].
  fold (faceLoop t). rewrite <- (face_loop_true t).
  unfold pairsTally, tripletsTally.
  split.
  - intros H.
    repeat match type of H with
           | (if ?c then _ else _) = _ => destruct c eqn:?
           end; bool_facts.
    + left. left. destruct t as [a b c d e f]. unfold total in *.
      cbn [n1 n2 n3 n4 n5 n6] in *. present_cases. f_equal; lia.
    + left. right. left. auto.
    + left. right. right. right. left. split; [assumption|].
      destruct t as [a b c d e f]. unfold total in *.
      cbn [n1 n2 n3 n4 n5 n6] in *. or_facts; bool_facts;
        present_cases; first [left; f_equal; lia | right; f_equal; lia].
    + left. right. right. right. right. split; [assumption|].
      destruct t as [a b c d e f]. unfold total in *.
      cbn [n1 n2 n3 n4 n5 n6] in *. or_facts; bool_facts;
        present_cases;
        first [ left; f_equal; lia | right; left; f_equal; lia
              | right; right; f_equal; lia ].
    + right. assumption.
  - intros H.
    repeat match goal with
           | |- (if ?c then _ else _) = true => destruct c eqn:?; [reflexivity|]
           end.
    destruct H as [[-> | [[E [T A]] | [[E [T A]] | [[E [-> | ->]] | [E [-> | [-> | ->]]]]]]] | H];
      try assumption;
      try (rewrite ?E, ?T, ?A in *; cbn in *; discriminate).
    apply face_loop_true, triplets_contribute, A.
Qed.

(** C3: on die faces 1..6 and point values that are not negative,
    [isScoringSelection] answers true exactly when the selection scores more
    than 0 and every die contributes: the selection is a whole-set combination
    (six-way straight, three pairs, two triplets, an enabled 4- or
    5-straight), or every face other than 1 and 5 that is present occurs at
    least three times.  In particular [1,2,2,2] is complete, [2,2] and [3]
    are not. *)
Theorem isScoringSelection_complete (dice : list nat) (rules : Rules) :
  validFaces dice -> nonNegativeValues rules ->
  (isScoringSelection dice rules = true <-> completeSelection dice rules)
  /\ isScoringSelection [1; 2; 2; 2]%nat DEFAULT_RULES = true
  /\ isScoringSelection [2; 2]%nat DEFAULT_RULES = false
  /\ isScoringSelection [3%nat] DEFAULT_RULES = false.
Proof.
  intros Hv Hnn. split; [|repeat split; reflexivity].
  pose proof (calculateScore_nonneg dice rules Hnn) as Hs.
  unfold completeSelection.
  destruct (Z.eq_dec (calculateScore dice rules) 0) as [Hz | Hz].
  - unfold isScoringSelection. cbn zeta. rewrite Hz. cbn. split.
    + discriminate.
    + intros [Hpos _]. lia.
  - rewrite (selection_cascade dice rules Hv Hz). split.
    + intros H. split; [lia | assumption].
    + intros [_ H]. assumption.
Qed.

Lemma isScoringSelection_complete_witness :
  (isScoringSelection [1; 2; 2; 2]%nat DEFAULT_RULES = true
   <-> completeSelection [1; 2; 2; 2]%nat DEFAULT_RULES)
  /\ isScoringSelection [1; 2; 2; 2]%nat DEFAULT_RULES = true
  /\ isScoringSelection [2; 2]%nat DEFAULT_RULES = false
  /\ isScoringSelection [3%nat] DEFAULT_RULES = false.
Proof.
  apply (isScoringSelection_complete [1; 2; 2; 2]%nat DEFAULT_RULES).
  - repeat constructor.
  - unfold nonNegativeValues; cbn; repeat split; lia.
Defined.

(** C1 (code defect): the branch that tells counts 4, 5 and 6 apart is nested
    inside [else if (count === 4)].  Five dice of one face therefore add
    nothing, for every rule configuration: five 1s score 0 and not the
    [fiveOfAKind] value.  Four of a kind are added twice: four 2s score 2000
    under the default rules ([fourOfAKind] is 1000), and four 1s score 2100,
    not the larger of [fourOfAKind] and [triple1 + single1], which is 1100. *)
Theorem calculateScore_of_a_kind_slip :
  (forall rules, calculateScore [1; 1; 1; 1; 1]%nat rules = 0)
  /\ (forall rules, calculateScore [2; 2; 2; 2; 2]%nat rules = 0)
  /\ fiveOfAKind DEFAULT_RULES = 2000
  /\ calculateScore [2; 2; 2; 2]%nat DEFAULT_RULES = 2000
  /\ fourOfAKind DEFAULT_RULES = 1000
  /\ calculateScore [1; 1; 1; 1]%nat DEFAULT_RULES = 2100
  /\ Z.max (fourOfAKind DEFAULT_RULES)
           (triple1 DEFAULT_RULES + single1 DEFAULT_RULES) = 1100.
Proof.
  split; [|split]; [| |repeat split; reflexivity];
    intros rules; score_eval; toggle_cases; lia.
Qed.

(* ================================================================== *)
(** * Properties of the match state machine *)
(* ================================================================== *)

Import Server.

(** Unfolds the monadic plumbing of a method. *)
Ltac run :=
  unfold bind, ret, modify, getState, throwTypeError;
  cbn -[Z.add Z.leb Z.ltb Z.eqb Nat.modulo Nat.eqb Nat.leb Nat.ltb
        isScoringSelection calculateScore hasPossibleMoves String.eqb newDice].

Ltac run_all :=
  unfold bind, ret, modify, getState, throwTypeError;
  cbn -[Z.add Z.leb Z.ltb Z.eqb
        isScoringSelection calculateScore hasPossibleMoves String.eqb newDice].

Lemma isStatus_true (s : Status) (g : GameState) :
  isStatus s g = true <-> gameStatus g = s.
Proof.
  unfold isStatus. destruct (gameStatus g), s; split; congruence.
Qed.

Lemma filter_none_selected (l : list Die) :
  Forall (fun d => selected d = false) l -> filter selected l = [].
Proof.
  induction 1 as [|d l Hd _ IH]; cbn; [reflexivity|]. now rewrite Hd.
Qed.

Lemma nextTurn_eq (g : GameState) :
  nextTurn g =
  if isFinalRound g
     && optNatEqb ((currentPlayerIndex g + 1) mod 2) (finalRoundTriggeredBy g)
  then endGame (turned g) else Returned tt (turned g).
Proof.
  unfold nextTurn, resetRound, turned. run.
  destruct (isFinalRound g); [|reflexivity].
  destruct (optNatEqb _ _); reflexivity.
Qed.

Lemma endGame_two (g : GameState) (p1 p2 : Player) :
  players g = [p1; p2] ->
  endGame g =
  Returned tt
    (setWinner (if score p2 <? score p1 then winnerSeat 0
                else if score p1 <? score p2 then winnerSeat 1 else tie)
       (setGameStatus finished g)).
Proof.
  intros Hp. unfold endGame. run. rewrite Hp. cbn.
  destruct (score p2 <? score p1); [reflexivity|].
  destruct (score p1 <? score p2); reflexivity.
Qed.

Lemma next_seat_differs (i : nat) : ((i + 1) mod 2 =? i)%nat = false.
Proof.
  apply Nat.eqb_neq.
  pose proof (Nat.mod_upper_bound (i + 1) 2 ltac:(lia)).
  destruct i as [|[|i]]; [cbn; lia | cbn; lia | lia].
Qed.

Lemma length_updateAt {A : Type} (i : nat) (f : A -> A) (l : list A) :
  length (updateAt i f l) = length l.
Proof.
  revert i. induction l as [|x l IH]; intros [|i]; cbn; auto.
Qed.

Lemma nth_error_updateAt {A : Type} (i : nat) (f : A -> A) (l : list A) :
  nth_error (updateAt i f l) i = option_map f (nth_error l i).
Proof.
  revert i. induction l as [|x l IH]; intros [|i]; cbn; auto.
Qed.

Lemma checkWinCondition_eq (g : GameState) (p : Player) :
  getCurrentPlayer g = Some p ->
  checkWinCondition g = Returned tt (flagged p g).
Proof.
  intros H. unfold checkWinCondition, flagged, bind, getState. rewrite H.
  destruct (_ && _); reflexivity.
Qed.

Lemma flagged_status (p : Player) (g : GameState) :
  gameStatus (flagged p g) = gameStatus g.
Proof. unfold flagged. destruct (_ && _); reflexivity. Qed.

Lemma flagged_players (p : Player) (g : GameState) :
  players (flagged p g) = players g.
Proof. unfold flagged. destruct (_ && _); reflexivity. Qed.

Lemma flagged_index (p : Player) (g : GameState) :
  currentPlayerIndex (flagged p g) = currentPlayerIndex g.
Proof. unfold flagged. destruct (_ && _); reflexivity. Qed.

Lemma bankRound_eq (g : GameState) (n : Z) (p : Player) :
  getCurrentPlayer g = Some p -> gameStatus g = playing ->
  bankRound n g =
  match nextTurn (flagged (addScore (roundAccumulatedScore g + n) p) (banked n g)) with
  | Returned _ g' => Returned BankSuccess g'
  | Thrown g' => Thrown g'
  end.
Proof.
  intros Hcur Hst.
  assert (Hcur' : getCurrentPlayer (banked n g)
                  = Some (addScore (roundAccumulatedScore g + n) p)).
  { unfold getCurrentPlayer, banked in *. cbn.
    rewrite nth_error_updateAt, Hcur. reflexivity. }
  unfold bankRound, bind, modify, getState, ret.
  change (getCurrentPlayer (setRoundAccumulatedScore (roundAccumulatedScore g + n) g))
    with (getCurrentPlayer g).
  rewrite Hcur.
  change (setPlayers _ _) with (banked n g).
  rewrite (checkWinCondition_eq _ _ Hcur').
  unfold isStatus. rewrite flagged_status.
  change (gameStatus (banked n g)) with (gameStatus g). rewrite Hst. cbn [negb].
  reflexivity.
Qed.

(** The effect of a successful bank on a two-player match in play. *)
Lemma bankRound_spec (g : GameState) (n : Z) (p : Player) :
  length (players g) = 2%nat ->
  getCurrentPlayer g = Some p ->
  gameStatus g = playing ->
  exists g',
    bankRound n g = Returned BankSuccess g'
    /\ players g' = updateAt (currentPlayerIndex g)
                      (addScore (roundAccumulatedScore g + n)) (players g)
    /\ currentPlayerIndex g' = ((currentPlayerIndex g + 1) mod 2)%nat
    /\ roundAccumulatedScore g' = 0
    /\ diceCountToRoll g' = 6%nat
    /\ currentDice g' = []
    /\ isFinalRound g'
       = (isFinalRound g || (10000 <=? score p + (roundAccumulatedScore g + n)))
    /\ finalRoundTriggeredBy g'
       = (if (10000 <=? score p + (roundAccumulatedScore g + n))
             && negb (isFinalRound g)
          then Some (currentPlayerIndex g) else finalRoundTriggeredBy g)
    /\ gameStatus g'
       = (if isFinalRound g
             && optNatEqb ((currentPlayerIndex g + 1) mod 2) (finalRoundTriggeredBy g)
          then finished else playing).
Proof.
  intros Hlen Hcur Hst.
  rewrite (bankRound_eq g n p Hcur Hst), nextTurn_eq.
  set (p' := addScore (roundAccumulatedScore g + n) p).
  set (g3 := flagged p' (banked n g)).
  assert (Hps : exists q1 q2, players (turned g3) = [q1; q2]).
  { unfold g3, turned. cbn. rewrite flagged_players. unfold banked. cbn.
    pose proof (length_updateAt (currentPlayerIndex g)
                  (addScore (roundAccumulatedScore g + n)) (players g)) as Hl.
    rewrite Hlen in Hl.
    destruct (updateAt _ _ _) as [|q1 [|q2 [|? ?]]]; try discriminate Hl.
    eauto. }
  destruct Hps as (q1 & q2 & Hps).
  rewrite (endGame_two _ q1 q2 Hps).
  assert (Hfin : isFinalRound g3
                 = (isFinalRound g || (10000 <=? score p + (roundAccumulatedScore g + n)))).
  { unfold g3, flagged, banked, p'. cbn.
    destruct (10000 <=? _), (isFinalRound g) eqn:Ef; cbn; rewrite ?Ef; reflexivity. }
  assert (Htrig : finalRoundTriggeredBy g3
                  = (if (10000 <=? score p + (roundAccumulatedScore g + n))
                        && negb (isFinalRound g)
                     then Some (currentPlayerIndex g) else finalRoundTriggeredBy g)).
  { unfold g3, flagged, banked, p'. cbn.
    destruct (10000 <=? _), (isFinalRound g) eqn:Ef; cbn; rewrite ?Ef; reflexivity. }
  assert (Hidx : currentPlayerIndex g3 = currentPlayerIndex g)
    by (unfold g3; rewrite flagged_index; reflexivity).
  assert (Hpl : players g3 = updateAt (currentPlayerIndex g)
                               (addScore (roundAccumulatedScore g + n)) (players g))
    by (unfold g3; rewrite flagged_players; reflexivity).
  assert (Hgs : gameStatus g3 = playing)
    by (unfold g3; rewrite flagged_status; exact Hst).
  assert (Hend : isFinalRound g3
                 && optNatEqb ((currentPlayerIndex g3 + 1) mod 2) (finalRoundTriggeredBy g3)
                 = isFinalRound g
                   && optNatEqb ((currentPlayerIndex g + 1) mod 2) (finalRoundTriggeredBy g)).
  { rewrite Hfin, Htrig, Hidx.
    destruct (10000 <=? _), (isFinalRound g); cbn; try reflexivity.
    apply next_seat_differs. }
  rewrite Hend. clearbody g3.
  destruct (isFinalRound g && optNatEqb _ (finalRoundTriggeredBy g));
    eexists; (split; [reflexivity|]); cbn;
    rewrite ?Hidx, ?Hpl, ?Hfin, ?Htrig; repeat split; assumption.
Qed.

Lemma nth_error_updateAt_other {A : Type} (i j : nat) (f : A -> A) (l : list A) :
  i <> j -> nth_error (updateAt i f l) j = nth_error l j.
Proof.
  revert i j. induction l as [|x l IH]; intros [|i] [|j] H; cbn; auto.
  contradiction.
Qed.

Lemma updateAt_same {A : Type} (i : nat) (f : A -> A) (l : list A) :
  (forall x, f x = x) -> updateAt i f l = l.
Proof.
  intros Hf. revert i. induction l as [|x l IH]; intros [|i]; cbn;
    rewrite ?Hf, ?IH; reflexivity.
Qed.

Lemma addScore_0 (p : Player) : addScore 0 p = p.
Proof. destruct p. unfold addScore. cbn. now rewrite Z.add_0_r. Qed.

Lemma length_pos_nonempty {A : Type} (l : list A) :
  l <> [] -> (0 <? length l)%nat = true.
Proof. destruct l; [congruence | reflexivity]. Qed.

(** C8: a roll by the current player while dice lie on the table and none of
    them is selected fails with "Must select dice to re-roll" and leaves the
    match as it was: the dice array, the round score and the number of dice to
    roll are those before the call. *)
Theorem roll_without_selection_fails
    (g : GameState) (playerId : string) (rng : Rng) (p : Player) :
  gameStatus g = playing ->
  getCurrentPlayer g = Some p -> id p = playerId ->
  currentDice g <> [] ->
  Forall (fun d => selected d = false) (currentDice g) ->
  roll playerId rng g = Returned (RollError "Must select dice to re-roll") g
  /\ rollHandlerError (RollError "Must select dice to re-roll")
     = Some "Must select dice to re-roll"%string
  /\ currentDice (stateOf (roll playerId rng g)) = currentDice g
  /\ roundAccumulatedScore (stateOf (roll playerId rng g)) = roundAccumulatedScore g
  /\ diceCountToRoll (stateOf (roll playerId rng g)) = diceCountToRoll g.
Proof.
  intros Hst Hcur Hid Hne Hsel.
  assert (E : roll playerId rng g
              = Returned (RollError "Must select dice to re-roll") g).
  { unfold roll. rewrite (proj2 (isStatus_true playing g) Hst), Hcur, Hid.
    rewrite String.eqb_refl, (length_pos_nonempty _ Hne).
    rewrite (filter_none_selected _ Hsel). reflexivity. }
  rewrite E. repeat split.
Qed.

(** C7: a bank by the current player with no die selected and dice on the
    table fails with "Cannot bank 0" when the round score is 0 and leaves the
    match unchanged; with a round score other than 0 it succeeds, adds exactly
    the round score to the banking player's total (the other seat keeps its
    total), hands the turn to the other seat and resets the round.  (A match
    in play has its two players in every reachable state, see
    [reachable_seats].) *)
Theorem bank_without_selection
    (g : GameState) (playerId : string) (p : Player) :
  gameStatus g = playing -> length (players g) = 2%nat ->
  getCurrentPlayer g = Some p -> id p = playerId ->
  currentDice g <> [] ->
  Forall (fun d => selected d = false) (currentDice g) ->
  (roundAccumulatedScore g = 0 ->
   bank playerId g = Returned (BankError "Cannot bank 0") g
   /\ bankHandlerError (BankError "Cannot bank 0") = Some "Cannot bank 0"%string)
  /\ (roundAccumulatedScore g <> 0 ->
      exists g',
        bank playerId g = Returned BankSuccess g'
        /\ nth_error (players g') (currentPlayerIndex g)
           = Some (addScore (roundAccumulatedScore g) p)
        /\ score (addScore (roundAccumulatedScore g) p)
           = score p + roundAccumulatedScore g
        /\ (forall j, j <> currentPlayerIndex g ->
                      nth_error (players g') j = nth_error (players g) j)
        /\ currentPlayerIndex g' = ((currentPlayerIndex g + 1) mod 2)%nat
        /\ currentPlayerIndex g' <> currentPlayerIndex g
        /\ roundAccumulatedScore g' = 0
        /\ diceCountToRoll g' = 6%nat
        /\ currentDice g' = []).
Proof.
  intros Hst Hlen Hcur Hid Hne Hsel.
  pose proof Hcur as Hn. unfold getCurrentPlayer in Hn.
  assert (E : bank playerId g
              = if (0 <? length (currentDice g))%nat && (roundAccumulatedScore g =? 0)
                then Returned (BankError "Cannot bank 0") g else bankRound 0 g).
  { unfold bank.
    rewrite (proj2 (isStatus_true playing g) Hst), Hcur, Hid, String.eqb_refl.
    rewrite (filter_none_selected _ Hsel). reflexivity. }
  rewrite (length_pos_nonempty _ Hne) in E. cbn [andb negb] in E. split.
  - intros H0. rewrite E, H0. split; reflexivity.
  - intros Hn0. apply Z.eqb_neq in Hn0. rewrite E, Hn0.
    destruct (bankRound_spec g 0 p Hlen Hcur Hst)
      as (g' & Hb & Hp & Hi & Hr & Hd & Hc & _).
    rewrite Z.add_0_r in Hp.
    exists g'. split; [assumption|]. rewrite Hp.
    split; [rewrite nth_error_updateAt, Hn; reflexivity|].
    split; [reflexivity|].
    split; [intros j Hj; apply nth_error_updateAt_other; congruence|].
    split; [assumption|].
    split; [rewrite Hi; apply Nat.eqb_neq, next_seat_differs|].
    auto.
Qed.

(** C10: in a match in play, a bank by the current player with no dice on
    the table and a round score of 0 does not fail; it adds 0 to the player's
    total (no total changes) and hands the turn to the other seat: the
    current player can pass without rolling.  (A match in play has its two
    players in every reachable state, see [reachable_seats].) *)
Theorem bank_without_rolling_passes
    (g : GameState) (playerId : string) (p : Player) :
  gameStatus g = playing -> length (players g) = 2%nat ->
  getCurrentPlayer g = Some p -> id p = playerId ->
  currentDice g = [] -> roundAccumulatedScore g = 0 ->
  exists g',
    bank playerId g = Returned BankSuccess g'
    /\ bankHandlerError BankSuccess = None
    /\ players g' = players g
    /\ nth_error (players g') (currentPlayerIndex g) = Some p
    /\ currentPlayerIndex g' = ((currentPlayerIndex g + 1) mod 2)%nat
    /\ currentPlayerIndex g' <> currentPlayerIndex g.
Proof.
  intros Hst Hlen Hcur Hid Hempty Hr0.
  destruct (bankRound_spec g 0 p Hlen Hcur Hst)
    as (g' & Hb & Hp & Hi & _).
  rewrite Hr0, Z.add_0_r, (updateAt_same _ _ _ addScore_0) in Hp.
  exists g'. split.
  - unfold bank.
    rewrite (proj2 (isStatus_true playing g) Hst), Hcur, Hid, String.eqb_refl.
    rewrite Hempty. cbn. assumption.
  - split; [reflexivity|]. split; [assumption|]. rewrite Hp.
    split; [exact Hcur|]. split; [assumption|].
    rewrite Hi. apply Nat.eqb_neq, next_seat_differs.
Qed.

(** C6 (amended): when the match is not in play, or the caller is not the
    occupant of the current seat, [bank] returns nothing at all ([undefined],
    no error object), the handler sends no error to the caller, and the match
    is unchanged; [roll] in the same situations returns the errors
    "Game not active" and "Not your turn". *)
Theorem bank_precondition_is_silent
    (g : GameState) (playerId : string) (rng : Rng) :
  (gameStatus g <> playing ->
   bank playerId g = Returned BankUndefined g
   /\ roll playerId rng g = Returned (RollError "Game not active") g)
  /\ (forall p, gameStatus g = playing -> getCurrentPlayer g = Some p ->
                id p <> playerId ->
                bank playerId g = Returned BankUndefined g
                /\ roll playerId rng g = Returned (RollError "Not your turn") g)
  /\ bankHandlerError BankUndefined = None.
Proof.
  split; [|split; [|reflexivity]].
  - intros Hst. unfold bank, roll.
    destruct (isStatus playing g) eqn:E.
    + apply isStatus_true in E. contradiction.
    + split; reflexivity.
  - intros p Hst Hcur Hid. unfold bank, roll.
    rewrite (proj2 (isStatus_true playing g) Hst), Hcur.
    apply String.eqb_neq in Hid. rewrite Hid. split; reflexivity.
Qed.


(** Runs a method to its leaves by cases on every test it makes. *)
Ltac simple_test c :=
  lazymatch c with
  | context [if _ then _ else _] => fail
  | context [match _ with _ => _ end] => fail
  | _ => idtac
  end.

Ltac crunch :=
  run;
  repeat (match goal with
          | |- context [if ?c then _ else _] => simple_test c; destruct c eqn:?
          | |- context [match ?c with _ => _ end] => simple_test c; destruct c eqn:?
          end; run).

Lemma length_newDice (rng : Rng) (n : nat) : length (newDice rng n) = n.
Proof. unfold newDice. now rewrite length_map, length_seq. Qed.

Lemma joinGame_round (s n : string) (g : GameState) :
  roundKeptOrReset g (stateOf (joinGame s n g)).
Proof.
  unfold roundKeptOrReset, joinGame, addPlayer, start, resetRound.
  crunch; auto.
Qed.

Lemma leaveGame_round (s : string) (g : GameState) :
  roundKeptOrReset g (stateOf (leaveGame s g)).
Proof.
  unfold roundKeptOrReset, leaveGame. crunch; auto.
Qed.

Lemma toggleSelection_round (s d : string) (g : GameState) :
  roundKeptOrReset g (stateOf (toggleSelection s d g)).
Proof.
  unfold roundKeptOrReset, toggleSelection. crunch; rewrite ?length_updateAt; auto.
Qed.


Lemma farkle_round (g : GameState) :
  roundKeptOrReset g (stateOf (farkle g)).
Proof.
  unfold roundKeptOrReset, farkle, nextTurn, endGame, resetRound. crunch; auto.
Qed.

Lemma bank_round (s : string) (g : GameState) :
  roundKeptOrReset g (stateOf (bank s g)).
Proof.
  unfold roundKeptOrReset, bank, bankRound, checkWinCondition, nextTurn, endGame,
    resetRound, getCurrentPlayer.
  crunch; auto.
Qed.

Lemma restart_round (g : GameState) :
  roundKeptOrReset g (stateOf (restart g)).
Proof.
  unfold roundKeptOrReset, restart, resetRound. crunch; auto.
Qed.

(** ** The number of dice to roll *)

Lemma roll_success (playerId : string) (rng : Rng) (g g' : GameState)
    (dice : list Die) (fk : bool) (rs : Z) (hot : bool) :
  roll playerId rng g = Returned (RollSuccess dice fk rs hot) g' ->
  diceCountToRoll g' = nextDiceCount g
  /\ currentDice g' = dice
  /\ dice = newDice rng (nextDiceCount g).
Proof.
  unfold roll, performRoll, nextDiceCount. crunch;
    intros H; try discriminate H; inversion H; subst; cbn; auto;
    bool_facts; lia.
Qed.

Lemma roll_state (playerId : string) (rng : Rng) (g : GameState) :
  stateOf (roll playerId rng g) = g
  \/ (diceCountToRoll (stateOf (roll playerId rng g)) = nextDiceCount g
      /\ currentDice (stateOf (roll playerId rng g)) = newDice rng (nextDiceCount g)).
Proof.
  unfold roll, performRoll, nextDiceCount. crunch; auto.
  bool_facts. lia.
Qed.

Lemma nextDiceCount_range (g : GameState) :
  (length (currentDice g) <= 6)%nat -> (1 <= nextDiceCount g <= 6)%nat.
Proof.
  intros H. unfold nextDiceCount.
  destruct (0 <? _)%nat; [|lia]. cbn zeta.
  destruct (Nat.eqb_spec (length (currentDice g)
                          - length (filter selected (currentDice g))) 0); lia.
Qed.

Lemma roundInvariant_kept (g g' : GameState) :
  roundKeptOrReset g g' -> roundInvariant g -> roundInvariant g'.
Proof.
  unfold roundKeptOrReset, roundInvariant.
  intros [[Hd Hc] | [Hd Hc]] [Hr Hl]; rewrite ?Hd, ?Hc; cbn; lia.
Qed.

Lemma roundInvariant_step (a : Action) (g : GameState) :
  roundInvariant g -> roundInvariant (step a g).
Proof.
  intros Hinv. destruct a; cbn [step].
  - exact (roundInvariant_kept _ _ (joinGame_round _ _ g) Hinv).
  - exact (roundInvariant_kept _ _ (leaveGame_round _ g) Hinv).
  - destruct (roll_state socketId rng g) as [-> | [Hd Hc]]; [assumption|].
    unfold roundInvariant. rewrite Hc, Hd, length_newDice.
    split; [|auto]. apply nextDiceCount_range.
    destruct Hinv as [Hr [Hl | Hl]]; lia.
  - exact (roundInvariant_kept _ _ (toggleSelection_round _ _ g) Hinv).
  - exact (roundInvariant_kept _ _ (bank_round _ g) Hinv).
  - exact (roundInvariant_kept _ _ (farkle_round g) Hinv).
  - exact (roundInvariant_kept _ _ (restart_round g) Hinv).
Qed.

Lemma reachable_roundInvariant (g : GameState) :
  reachable g -> roundInvariant g.
Proof.
  induction 1 as [room | a g _ IH].
  - unfold roundInvariant. cbn. lia.
  - apply roundInvariant_step, IH.
Qed.



(** ** The final round *)

(** [crunch], using what is known of the state before the call. *)
Ltac crunch_with H :=
  run; rewrite ?H; run; rewrite ?andb_false_r; run;
  repeat (match goal with
          | |- context [if ?c then _ else _] => simple_test c; destruct c eqn:?
          | |- context [match ?c with _ => _ end] => simple_test c; destruct c eqn:?
          end; run; rewrite ?H; run; rewrite ?andb_false_r; run).

(** No action but [restart] clears the flag, and while it is set the trigger
    seat stays as recorded. *)
Lemma isFinalRound_kept (a : Action) (g : GameState) :
  isFinalRound g = true -> a <> ARestart ->
  isFinalRound (step a g) = true
  /\ finalRoundTriggeredBy (step a g) = finalRoundTriggeredBy g.
Proof.
  intros H Ha. destruct a; cbn [step]; try contradiction.
  - unfold joinGame, addPlayer, start, resetRound. crunch_with H; auto.
  - unfold leaveGame. crunch_with H; auto.
  - unfold roll, performRoll. crunch_with H; auto.
  - unfold toggleSelection. crunch_with H; auto.
  - unfold bank, bankRound, checkWinCondition, nextTurn, endGame, resetRound,
      getCurrentPlayer.
    crunch_with H; auto.
  - unfold farkle, nextTurn, endGame, resetRound. crunch_with H; auto.
Qed.

(** A match in play is finished by a turn advance only. *)
Lemma finished_by_turn_advance (a : Action) (g : GameState) :
  gameStatus g = playing -> gameStatus (step a g) = finished ->
  (exists s, a = ABank s) \/ a = AFarkle.
Proof.
  intros H Hf. destruct a; cbn [step] in Hf; eauto; exfalso; revert Hf.
  - unfold joinGame, addPlayer, start, resetRound, isStatus.
    crunch_with H; intros; congruence.
  - unfold leaveGame, isStatus. crunch_with H; intros; congruence.
  - unfold roll, performRoll, isStatus. crunch_with H; intros; congruence.
  - unfold toggleSelection, isStatus. crunch_with H; intros; congruence.
  - unfold restart, resetRound, isStatus. crunch_with H; intros; congruence.
Qed.

Lemma bank_success (playerId : string) (g g' : GameState) :
  bank playerId g = Returned BankSuccess g' ->
  gameStatus g = playing
  /\ exists p n, getCurrentPlayer g = Some p /\ id p = playerId
                 /\ bankRound n g = Returned BankSuccess g'.
Proof.
  unfold bank. intros H.
  destruct (isStatus playing g) eqn:Hst; cbn [negb] in H; [|discriminate H].
  apply isStatus_true in Hst. split; [assumption|].
  destruct (getCurrentPlayer g) as [p|]; [|discriminate H].
  destruct (String.eqb_spec (id p) playerId) as [Hid | Hid]; cbn [negb] in H;
    [|discriminate H].
  exists p.
  destruct (0 <? length _)%nat.
  - destruct (isScoringSelection _ _); [|discriminate H]. eauto.
  - destruct (_ && _); [discriminate H|]. eauto.
Qed.

(** C4: a successful bank that lifts the banking player's total to the win
    threshold (10000, the [winScore] of the rules) while the final round is
    not yet on sets [isFinalRound], records the banking seat in
    [finalRoundTriggeredBy], hands the turn to the other seat and leaves the
    match in play.  No action but [restart], which acts on finished matches
    only, clears the flag, and while it is set the trigger seat stays as
    recorded.  A match in play is finished by a turn advance only, and
    [nextTurn] finishes it exactly when the flag is set and the seat that
    becomes current is the trigger seat; the winner is then the player with
    the strictly higher total, or the tie marker.  (A match in play has its
    two players in every reachable state, see [reachable_seats].) *)
Theorem final_round_protocol :
  (forall g playerId g' p',
      length (players g) = 2%nat ->
      bank playerId g = Returned BankSuccess g' ->
      isFinalRound g = false ->
      nth_error (players g') (currentPlayerIndex g) = Some p' ->
      winScore DEFAULT_RULES <= score p' ->
      isFinalRound g' = true
      /\ finalRoundTriggeredBy g' = Some (currentPlayerIndex g)
      /\ gameStatus g' = playing
      /\ currentPlayerIndex g' = ((currentPlayerIndex g + 1) mod 2)%nat
      /\ currentPlayerIndex g' <> currentPlayerIndex g)
  /\ (forall a g, isFinalRound g = true -> a <> ARestart ->
                  isFinalRound (step a g) = true
                  /\ finalRoundTriggeredBy (step a g) = finalRoundTriggeredBy g)
  /\ (forall g, gameStatus g <> finished -> restart g = Returned false g)
  /\ (forall a g, gameStatus g = playing -> gameStatus (step a g) = finished ->
                  (exists s, a = ABank s) \/ a = AFarkle)
  /\ (forall g p1 p2,
         players g = [p1; p2] -> gameStatus g = playing ->
         let next := ((currentPlayerIndex g + 1) mod 2)%nat in
         (isFinalRound g = true /\ finalRoundTriggeredBy g = Some next ->
          exists g',
            nextTurn g = Returned tt g'
            /\ gameStatus g' = finished
            /\ currentPlayerIndex g' = next
            /\ players g' = [p1; p2]
            /\ (score p2 < score p1 -> winner g' = winnerSeat 0)
            /\ (score p1 < score p2 -> winner g' = winnerSeat 1)
            /\ (score p1 = score p2 -> winner g' = tie))
         /\ (~ (isFinalRound g = true /\ finalRoundTriggeredBy g = Some next) ->
             exists g',
               nextTurn g = Returned tt g' /\ gameStatus g' = playing
               /\ currentPlayerIndex g' = next)).
Proof.
  split; [|split; [|split; [|split]]].
  - intros g playerId g' p' Hlen Hbank Hfin Hp' Hwin.
    apply bank_success in Hbank as (Hst & p & n & Hcur & _ & Hb).
    destruct (bankRound_spec g n p Hlen Hcur Hst)
      as (g'' & Hb' & Hpl & Hi & _ & _ & _ & Hf & Ht & Hs).
    rewrite Hb in Hb'. injection Hb' as <-.
    rewrite Hpl, nth_error_updateAt in Hp'.
    unfold getCurrentPlayer in Hcur. rewrite Hcur in Hp'. cbn in Hp'.
    injection Hp' as <-.
    cbn in Hwin.
    assert (Hw : (10000 <=? score p + (roundAccumulatedScore g + n)) = true)
      by (apply Z.leb_le; exact Hwin).
    rewrite Hfin, Hw in *. cbn in *.
    repeat split; try assumption.
    rewrite Hi. apply Nat.eqb_neq, next_seat_differs.
  - apply isFinalRound_kept.
  - intros g Hst. unfold restart, bind, getState.
    destruct (isStatus finished g) eqn:E; [|reflexivity].
    apply isStatus_true in E. contradiction.
  - apply finished_by_turn_advance.
  - intros g p1 p2 Hp Hst next. rewrite nextTurn_eq. fold next. split.
    + intros [Hf Ht]. rewrite Hf, Ht. cbn [optNatEqb andb].
      rewrite Nat.eqb_refl.
      rewrite (endGame_two (turned g) p1 p2 Hp).
      eexists. split; [reflexivity|]. cbn. repeat split; try assumption.
      * intros H. apply Z.ltb_lt in H. rewrite H. reflexivity.
      * intros H. assert (H' : (score p2 <? score p1) = false)
          by (apply Z.ltb_ge; lia).
        apply Z.ltb_lt in H. rewrite H', H. reflexivity.
      * intros H. rewrite H, Z.ltb_irrefl. reflexivity.
    + intros Hn.
      destruct (isFinalRound g && optNatEqb next (finalRoundTriggeredBy g)) eqn:E.
      * exfalso. apply Hn. apply andb_true_iff in E as [Hf Ht].
        split; [assumption|].
        destruct (finalRoundTriggeredBy g) as [t|]; [|discriminate Ht].
        cbn in Ht. apply Nat.eqb_eq in Ht. f_equal. symmetry. exact Ht.
      * eexists. split; [reflexivity|]. cbn. auto.
Qed.

(** ** Two seats in play *)

Ltac seats_leaf :=
  unfold seatsInvariant; cbn -[Nat.modulo];
  rewrite ?length_updateAt, ?length_map, ?length_app in *; cbn [length] in *;
  bool_facts;
  try solve [ split; [ first [lia | apply Nat.mod_upper_bound; lia]
                     | split; intros; first [congruence | lia | auto] ] ].

(** Splits on the status, with what the invariant says in each case. *)
Ltac by_status g Hp Hf Hst :=
  destruct (gameStatus g) eqn:Hst;
  [ clear Hp;
    assert (isFinalRound g = false)
      by (destruct (isFinalRound g); [exfalso; apply Hf; reflexivity | reflexivity]);
    clear Hf
  | specialize (Hp ltac:(discriminate)); clear Hf
  | specialize (Hp ltac:(discriminate)); clear Hf ].

Lemma nextTurn_seats (g : GameState) :
  seatsInvariant g -> seatsInvariant (stateOf (nextTurn g)).
Proof.
  intros (Hi & Hp & Hf). rewrite nextTurn_eq.
  assert (Hm : ((currentPlayerIndex g + 1) mod 2 < 2)%nat)
    by (apply Nat.mod_upper_bound; lia).
  destruct (isFinalRound g) eqn:Efin; cbn [andb].
  - specialize (Hf eq_refl). specialize (Hp Hf).
    destruct (optNatEqb _ _).
    + destruct (players g) as [|p1 [|p2 [|? ?]]] eqn:Epl; try discriminate Hp.
      rewrite (endGame_two (turned g) p1 p2 Epl).
      unfold seatsInvariant. cbn -[Nat.modulo]. rewrite Epl.
      repeat split; auto; discriminate.
    + unfold seatsInvariant. cbn -[Nat.modulo]. auto.
  - unfold seatsInvariant. cbn -[Nat.modulo]. rewrite Efin.
    repeat split; auto; discriminate.
Qed.

Lemma bank_seats (s : string) (g : GameState) :
  seatsInvariant g -> seatsInvariant (stateOf (bank s g)).
Proof.
  intros Hinv. pose proof Hinv as (Hi & Hp & Hf). unfold bank.
  destruct (isStatus playing g) eqn:Hst; cbn [negb]; [|exact Hinv].
  apply isStatus_true in Hst.
  destruct (getCurrentPlayer g) as [p|] eqn:Hcur; [|exact Hinv].
  destruct (negb _); [exact Hinv|].
  assert (Hlen : length (players g) = 2%nat) by (apply Hp; congruence).
  assert (Hb : forall n, seatsInvariant (stateOf (bankRound n g))).
  { intros n.
    destruct (bankRound_spec g n p Hlen Hcur Hst)
      as (g' & -> & Hpl & Hidx & _ & _ & _ & _ & _ & Hs).
    unfold seatsInvariant. cbn [stateOf].
    rewrite Hidx, Hpl, length_updateAt, Hs.
    split; [apply Nat.mod_upper_bound; lia|]. split; [auto|].
    intros _. destruct (_ && _); discriminate. }
  destruct (0 <? _)%nat.
  - destruct (isScoringSelection _ _); [apply Hb | exact Hinv].
  - destruct (_ && _); [exact Hinv | apply Hb].
Qed.

Lemma seatsInvariant_step (a : Action) (g : GameState) :
  seatsInvariant g -> seatsInvariant (step a g).
Proof.
  intros Hinv. pose proof Hinv as (Hi & Hp & Hf). destruct a; cbn [step].
  - unfold joinGame, addPlayer, start, resetRound, isStatus.
    by_status g Hp Hf Hst; crunch_with Hst; seats_leaf.
  - unfold leaveGame, isStatus.
    by_status g Hp Hf Hst; crunch_with Hst; seats_leaf.
  - unfold roll, performRoll. crunch; seats_leaf.
  - unfold toggleSelection. crunch; seats_leaf.
  - apply bank_seats, Hinv.
  - unfold farkle, bind, modify. apply nextTurn_seats. exact Hinv.
  - unfold restart, resetRound, isStatus.
    by_status g Hp Hf Hst; crunch_with Hst; seats_leaf.
Qed.

(** In every reachable state the current seat is 0 or 1, and a match that
    has started has its two players. *)
Lemma reachable_seats (g : GameState) :
  reachable g -> seatsInvariant g.
Proof.
  induction 1 as [room | a g _ IH].
  - unfold seatsInvariant. cbn. repeat split; try lia; try discriminate.
    intros H. contradiction.
  - apply seatsInvariant_step, IH.
Qed.

(** ** The properties on the match played above *)

Lemma reachable_play (actions : list Action) (g : GameState) :
  reachable g -> reachable (play actions g).
Proof.
  revert g. induction actions as [|a l IH]; intros g H; cbn.
  - assumption.
  - apply IH. now constructor.
Qed.

Lemma reachable_firstRoll : reachable firstRoll.
Proof.
  unfold firstRoll, seated. do 2 apply reachable_play. constructor.
Qed.

Lemma reachable_finishedMatch : reachable finishedMatch.
Proof.
  unfold finishedMatch, finalRound, beforeWinningBank, hotDiceRoll.
  do 4 apply reachable_play. apply reachable_firstRoll.
Qed.

Lemma final_round_protocol_witness :
  isFinalRound finalRound = true
  /\ finalRoundTriggeredBy finalRound = Some (currentPlayerIndex beforeWinningBank)
  /\ gameStatus finalRound = playing
  /\ currentPlayerIndex finalRound
     = ((currentPlayerIndex beforeWinningBank + 1) mod 2)%nat
  /\ currentPlayerIndex finalRound <> currentPlayerIndex beforeWinningBank.
Proof.
  apply (proj1 final_round_protocol beforeWinningBank "a"%string finalRound
           (mkPlayer "a" "Alice" 10000 true)).
  - vm_compute; reflexivity.
  - vm_compute; reflexivity.
  - vm_compute; reflexivity.
  - vm_compute; reflexivity.
  - vm_compute; discriminate.
Defined.



(** C6, as stated, fails on a match that has not started and on a caller who
    is not the current player: [bank] returns no error at all, where [roll]
    returns "Game not active" and "Not your turn". *)
Lemma bank_returns_no_error :
  gameStatus (newGame "Table 1") <> playing
  /\ (forall e g', bank "a" (newGame "Table 1") <> Returned (BankError e) g')
  /\ roll "a" allOnes (newGame "Table 1")
     = Returned (RollError "Game not active") (newGame "Table 1")
  /\ gameStatus seated = playing
  /\ getCurrentPlayer seated = Some (mkPlayer "a" "Alice" 0 true)
  /\ (forall e g', bank "b" seated <> Returned (BankError e) g')
  /\ roll "b" allOnes seated = Returned (RollError "Not your turn") seated.
Proof.
  repeat split; try (vm_compute; reflexivity); try discriminate;
    intros e g'; vm_compute; discriminate.
Qed.

Lemma bank_precondition_is_silent_witness :
  bank "a" (newGame "Table 1") = Returned BankUndefined (newGame "Table 1")
  /\ roll "a" allOnes (newGame "Table 1")
     = Returned (RollError "Game not active") (newGame "Table 1").
Proof.
  apply (proj1 (bank_precondition_is_silent (newGame "Table 1") "a"%string allOnes)).
  vm_compute; discriminate.
Defined.

Lemma bank_without_selection_witness :
  (roundAccumulatedScore firstRoll = 0 ->
   bank "a" firstRoll = Returned (BankError "Cannot bank 0") firstRoll
   /\ bankHandlerError (BankError "Cannot bank 0") = Some "Cannot bank 0"%string)
  /\ (roundAccumulatedScore hotDiceRoll <> 0 ->
      exists g',
        bank "a" hotDiceRoll = Returned BankSuccess g'
        /\ nth_error (players g') (currentPlayerIndex hotDiceRoll)
           = Some (addScore (roundAccumulatedScore hotDiceRoll)
                     (mkPlayer "a" "Alice" 0 true))
        /\ score (addScore (roundAccumulatedScore hotDiceRoll)
                    (mkPlayer "a" "Alice" 0 true))
           = score (mkPlayer "a" "Alice" 0 true) + roundAccumulatedScore hotDiceRoll
        /\ (forall j, j <> currentPlayerIndex hotDiceRoll ->
                      nth_error (players g') j = nth_error (players hotDiceRoll) j)
        /\ currentPlayerIndex g' = ((currentPlayerIndex hotDiceRoll + 1) mod 2)%nat
        /\ currentPlayerIndex g' <> currentPlayerIndex hotDiceRoll
        /\ roundAccumulatedScore g' = 0
        /\ diceCountToRoll g' = 6%nat
        /\ currentDice g' = []).
Proof.
  split.
  - apply (bank_without_selection firstRoll "a"%string (mkPlayer "a" "Alice" 0 true));
      try (vm_compute; reflexivity).
    + vm_compute; discriminate.
    + vm_compute; repeat constructor.
  - apply (bank_without_selection hotDiceRoll "a"%string (mkPlayer "a" "Alice" 0 true));
      try (vm_compute; reflexivity).
    + vm_compute; discriminate.
    + vm_compute; repeat constructor.
Defined.

Lemma roll_without_selection_fails_witness :
  roll "a" allOnes firstRoll
  = Returned (RollError "Must select dice to re-roll") firstRoll
  /\ rollHandlerError (RollError "Must select dice to re-roll")
     = Some "Must select dice to re-roll"%string
  /\ currentDice (stateOf (roll "a" allOnes firstRoll)) = currentDice firstRoll
  /\ roundAccumulatedScore (stateOf (roll "a" allOnes firstRoll))
     = roundAccumulatedScore firstRoll
  /\ diceCountToRoll (stateOf (roll "a" allOnes firstRoll))
     = diceCountToRoll firstRoll.
Proof.
  apply (roll_without_selection_fails firstRoll "a"%string allOnes
           (mkPlayer "a" "Alice" 0 true));
    try (vm_compute; reflexivity).
  - vm_compute; discriminate.
  - vm_compute; repeat constructor.
Defined.


Lemma bank_without_rolling_passes_witness :
  exists g',
    bank "a" seated = Returned BankSuccess g'
    /\ bankHandlerError BankSuccess = None
    /\ players g' = players seated
    /\ nth_error (players g') (currentPlayerIndex seated)
       = Some (mkPlayer "a" "Alice" 0 true)
    /\ currentPlayerIndex g' = ((currentPlayerIndex seated + 1) mod 2)%nat
    /\ currentPlayerIndex g' <> currentPlayerIndex seated.
Proof.
  apply (bank_without_rolling_passes seated "a"%string (mkPlayer "a" "Alice" 0 true));
    vm_compute; reflexivity.
Defined.

(* ================================================================== *)
(** * Further properties of the scoring engine *)
(* ================================================================== *)

(** ** The counts object, for arbitrary faces *)

Lemma get_set_same (c : Counts) (k n : nat) : get (set c k n) k = Some n.
Proof.
  induction c as [|[k' n'] c IH]; cbn [set get keys map fst].
  - now rewrite Nat.eqb_refl.
  - destruct (Nat.ltb_spec k k'); cbn [set get keys map fst].
    + now rewrite Nat.eqb_refl.
    + destruct (Nat.eqb_spec k k'); cbn [set get keys map fst].
      * now rewrite Nat.eqb_refl.
      * destruct (Nat.eqb_spec k k'); [contradiction | exact IH].
Qed.

Lemma get_set_other (c : Counts) (k k0 n : nat) :
  k0 <> k -> get (set c k n) k0 = get c k0.
Proof.
  intros Hne. induction c as [|[k' n'] c IH]; cbn [set get keys map fst].
  - destruct (Nat.eqb_spec k0 k); [contradiction | reflexivity].
  - destruct (Nat.ltb_spec k k'); cbn [set get keys map fst].
    + destruct (Nat.eqb_spec k0 k); [contradiction | reflexivity].
    + destruct (Nat.eqb_spec k k'); cbn [set get keys map fst].
      * subst k'. destruct (Nat.eqb_spec k0 k); [contradiction | reflexivity].
      * destruct (Nat.eqb_spec k0 k'); [reflexivity | exact IH].
Qed.

Lemma keys_set (c : Counts) (k n x : nat) :
  In x (keys (set c k n)) -> x = k \/ In x (keys c).
Proof.
  induction c as [|[k' n'] c IH]; cbn [set get keys map fst In].
  - intuition.
  - destruct (Nat.ltb_spec k k'); cbn [set get keys map fst In].
    + intuition.
    + destruct (Nat.eqb_spec k k'); cbn; intuition.
Qed.

Lemma set_sorted (c : Counts) (k n : nat) :
  StronglySorted Nat.lt (keys c) -> StronglySorted Nat.lt (keys (set c k n)).
Proof.
  induction c as [|[k' n'] c IH]; cbn [set get keys map fst]; intros Hs.
  - repeat constructor.
  - apply StronglySorted_inv in Hs as [Hs Hall].
    destruct (Nat.ltb_spec k k'); cbn [set get keys map fst].
    + constructor; [constructor; assumption|].
      constructor; [assumption|].
      eapply Forall_impl; [|exact Hall]. cbn. intros. lia.
    + destruct (Nat.eqb_spec k k'); cbn [set get keys map fst].
      * subst k'. constructor; assumption.
      * constructor; [apply IH; assumption|].
        apply Forall_forall. intros x Hx.
        apply keys_set in Hx as [-> | Hx]; [lia|].
        rewrite Forall_forall in Hall. apply Hall, Hx.
Qed.

Lemma countDice_sorted (dice : list nat) :
  StronglySorted Nat.lt (keys (countDice dice)).
Proof.
  induction dice as [|d l IH] using rev_ind.
  - constructor.
  - rewrite countDice_snoc. apply set_sorted, IH.
Qed.

Lemma get_countDice (dice : list nat) (k : nat) :
  get (countDice dice) k
  = if (cnt k dice =? 0)%nat then None else Some (cnt k dice).
Proof.
  induction dice as [|d l IH] using rev_ind.
  - reflexivity.
  - rewrite countDice_snoc. unfold cnt in *. rewrite count_occ_app. cbn.
    destruct (Nat.eq_dec d k) as [-> | Hne].
    + rewrite get_set_same. unfold getOr0. rewrite IH.
      destruct (count_occ Nat.eq_dec l k) as [|c] eqn:E; cbn [Nat.eqb Nat.add].
      * reflexivity.
      * replace (S c + 1)%nat with (S (S c)) by lia.
        replace (S (c + 1)) with (S (S c)) by lia. reflexivity.
    + rewrite get_set_other by congruence. rewrite IH, Nat.add_0_r. reflexivity.
Qed.

Lemma get_above (c : Counts) (k : nat) :
  Forall (Nat.lt k) (keys c) -> get c k = None.
Proof.
  induction c as [|[k' n'] c IH]; cbn; intros H; [reflexivity|].
  inversion H; subst. destruct (Nat.eqb_spec k k'); [lia | auto].
Qed.

(** Two counts objects with ascending keys and the same entries are equal. *)
Lemma counts_ext (c1 c2 : Counts) :
  StronglySorted Nat.lt (keys c1) -> StronglySorted Nat.lt (keys c2) ->
  (forall k, get c1 k = get c2 k) -> c1 = c2.
Proof.
  revert c2. induction c1 as [|[k1 n1] c1 IH]; intros [|[k2 n2] c2] H1 H2 Hg.
  - reflexivity.
  - specialize (Hg k2). cbn in Hg. rewrite Nat.eqb_refl in Hg. discriminate.
  - specialize (Hg k1). cbn in Hg. rewrite Nat.eqb_refl in Hg. discriminate.
  - cbn in H1, H2.
    apply StronglySorted_inv in H1 as [H1 A1].
    apply StronglySorted_inv in H2 as [H2 A2].
    assert (Hk : k1 = k2).
    { destruct (Nat.lt_trichotomy k1 k2) as [Hlt | [Heq | Hgt]]; [|assumption|].
      - exfalso. specialize (Hg k1). cbn in Hg. rewrite Nat.eqb_refl in Hg.
        destruct (Nat.eqb_spec k1 k2); [lia|].
        rewrite get_above in Hg; [discriminate|].
        eapply Forall_impl; [|exact A2]. cbn. intros. lia.
      - exfalso. specialize (Hg k2). cbn in Hg. rewrite Nat.eqb_refl in Hg.
        destruct (Nat.eqb_spec k2 k1); [lia|].
        rewrite get_above in Hg; [discriminate|].
        eapply Forall_impl; [|exact A1]. cbn. intros. lia. }
    subst k2.
    assert (Hn : n1 = n2).
    { specialize (Hg k1). cbn in Hg. rewrite Nat.eqb_refl in Hg. congruence. }
    subst n2. f_equal. apply IH; try assumption.
    intros k. destruct (Nat.eq_dec k k1) as [-> | Hne].
    + now rewrite !get_above.
    + specialize (Hg k). cbn in Hg.
      destruct (Nat.eqb_spec k k1); [contradiction | exact Hg].
Qed.

Lemma countDice_permutation (a b : list nat) :
  Permutation a b -> countDice a = countDice b.
Proof.
  intros Hp. apply counts_ext; try apply countDice_sorted.
  intros k. rewrite !get_countDice. unfold cnt.
  now rewrite (proj1 (Permutation_count_occ Nat.eq_dec a b) Hp).
Qed.

Lemma sorted_NoDup (l : list nat) : StronglySorted Nat.lt l -> NoDup l.
Proof.
  induction 1 as [|a l Hl IH Ha]; constructor; [|exact IH].
  intros Hin. rewrite Forall_forall in Ha. specialize (Ha a Hin).
  unfold Nat.lt in Ha. lia.
Qed.

Lemma keys_countDice (dice : list nat) (k : nat) :
  In k (keys (countDice dice)) <-> In k dice.
Proof.
  assert (Hk : forall c : Counts, In k (keys c) <-> get c k <> None).
  { induction c as [|[k' n'] c IH]; cbn.
    - intuition.
    - destruct (Nat.eqb_spec k k'); [subst; intuition congruence|].
      rewrite <- IH. intuition congruence. }
  rewrite Hk, get_countDice, (count_occ_In Nat.eq_dec). fold (cnt k dice).
  destruct (cnt k dice); cbn; split; intros H; try lia; congruence.
Qed.

(** X1: the counts object built from an array of faces that are array
    indices (integers from 0 to 2^32 - 2, the keys that an object enumerates
    in ascending order; every die face is one) holds for each face the
    number of dice that show it, has no entry for a face that does not
    occur, has as many keys as there are distinct faces, and lists its keys
    in strictly ascending order. *)
Theorem countDice_counts (dice : list nat) :
  Forall (fun d => Z.of_nat d < 2 ^ 32 - 1) dice ->
  (forall k, get (countDice dice) k
             = if (count_occ Nat.eq_dec dice k =? 0)%nat then None
               else Some (count_occ Nat.eq_dec dice k))
  /\ (forall k, In k (keys (countDice dice)) <-> In k dice)
  /\ length (keys (countDice dice)) = length (nodup Nat.eq_dec dice)
  /\ StronglySorted Nat.lt (keys (countDice dice)).
Proof.
  intros _.
  split; [exact (get_countDice dice)|]. split; [exact (keys_countDice dice)|].
  split; [|apply countDice_sorted].
  apply Permutation_length, NoDup_Permutation.
  - apply sorted_NoDup, countDice_sorted.
  - apply NoDup_nodup.
  - intros k. rewrite nodup_In. apply keys_countDice.
Qed.

Lemma countDice_counts_witness :
  (forall k, get (countDice [7; 0; 7; 100; 3]%nat) k
             = if (count_occ Nat.eq_dec [7; 0; 7; 100; 3]%nat k =? 0)%nat
               then None
               else Some (count_occ Nat.eq_dec [7; 0; 7; 100; 3]%nat k))
  /\ (forall k, In k (keys (countDice [7; 0; 7; 100; 3]%nat))
                <-> In k [7; 0; 7; 100; 3]%nat)
  /\ length (keys (countDice [7; 0; 7; 100; 3]%nat))
     = length (nodup Nat.eq_dec [7; 0; 7; 100; 3]%nat)
  /\ StronglySorted Nat.lt (keys (countDice [7; 0; 7; 100; 3]%nat)).
Proof.
  apply (countDice_counts [7; 0; 7; 100; 3]%nat).
  repeat (apply Forall_cons; [vm_compute; reflexivity|]). apply Forall_nil.
Defined.

(** X2: the score, the bust test and the selection test do not depend on
    the order of the dice, whatever the faces and the rules. *)
Theorem scoring_ignores_order (a b : list nat) (rules : Rules) :
  Permutation a b ->
  calculateScore a rules = calculateScore b rules
  /\ hasPossibleMoves a rules = hasPossibleMoves b rules
  /\ isScoringSelection a rules = isScoringSelection b rules.
Proof.
  intros Hp.
  assert (Hs : calculateScore a rules = calculateScore b rules).
  { unfold calculateScore.
    now rewrite (countDice_permutation a b Hp), (Permutation_length Hp). }
  split; [exact Hs|]. split.
  - unfold hasPossibleMoves.
    now rewrite (countDice_permutation a b Hp), (Permutation_length Hp).
  - unfold isScoringSelection.
    now rewrite Hs, (countDice_permutation a b Hp), (Permutation_length Hp).
Qed.

Lemma scoring_ignores_order_witness :
  calculateScore [5; 1; 1; 1]%nat DEFAULT_RULES
  = calculateScore [1; 5; 1; 1]%nat DEFAULT_RULES
  /\ hasPossibleMoves [5; 1; 1; 1]%nat DEFAULT_RULES
     = hasPossibleMoves [1; 5; 1; 1]%nat DEFAULT_RULES
  /\ isScoringSelection [5; 1; 1; 1]%nat DEFAULT_RULES
     = isScoringSelection [1; 5; 1; 1]%nat DEFAULT_RULES.
Proof.
  apply (scoring_ignores_order [5; 1; 1; 1]%nat [1; 5; 1; 1]%nat DEFAULT_RULES).
  apply perm_swap.
Defined.

(** ** A bust leaves no selection to make *)

Lemma isScoringSelection_zero (s : list nat) (rules : Rules) :
  calculateScore s rules = 0 -> isScoringSelection s rules = false.
Proof.
  intros H. unfold isScoringSelection. cbn zeta. now rewrite H.
Qed.

Lemma single_contributes (k : nat) (rules : Rules) :
  k = 1%nat \/ k = 5%nat -> everyDieContributes [k] rules.
Proof.
  intros Hk. right. intros f [<- | []]. tauto.
Qed.

Lemma triple_contributes (k : nat) (rules : Rules) :
  everyDieContributes [k; k; k] rules.
Proof.
  right. intros f Hf. right. right.
  assert (f = k) by (cbn in Hf; intuition). subst f.
  unfold cnt. cbn. destruct (Nat.eq_dec k k); [lia | contradiction].
Qed.

(** A roll with a move has a sub-selection that the selection test accepts. *)
Lemma moves_give_complete_selection (dice : list nat) (rules : Rules) :
  validFaces dice -> positiveValues rules ->
  hasPossibleMoves dice rules = true ->
  exists s, s <> [] /\ subMultiset s dice /\ isScoringSelection s rules = true.
Proof.
  intros Hv (P1 & P5 & P2 & P3 & P4 & P6 & PP) H.
  assert (Hone : forall k, (k = 1 \/ k = 5)%nat -> (1 <= cnt k dice)%nat ->
                 0 < calculateScore [k] rules ->
                 exists s, s <> [] /\ subMultiset s dice
                           /\ isScoringSelection s rules = true).
  { intros k Hk Hc Hs. exists [k]. split; [discriminate|]. split.
    - intros f. apply cnt_single_le. exact Hc.
    - apply selection_cascade.
      + unfold validFaces. apply Forall_cons; [lia | apply Forall_nil].
      + lia.
      + apply single_contributes, Hk. }
  assert (Htri : forall k, (1 <= k <= 6)%nat -> (3 <= cnt k dice)%nat ->
                 0 < tripleValueOf rules k ->
                 exists s, s <> [] /\ subMultiset s dice
                           /\ isScoringSelection s rules = true).
  { intros k Hk Hc Hs. exists [k; k; k]. split; [discriminate|]. split.
    - intros f. apply cnt_triple_le. exact Hc.
    - apply selection_cascade.
      + unfold validFaces. repeat (apply Forall_cons; [lia|]). apply Forall_nil.
      + rewrite score_triple by assumption. lia.
      + apply triple_contributes. }
  destruct (tally dice) as [a b c d e f] eqn:Ht.
  assert (Hc : cnt 1 dice = a /\ cnt 2 dice = b /\ cnt 3 dice = c
               /\ cnt 4 dice = d /\ cnt 5 dice = e /\ cnt 6 dice = f)
    by (unfold tally in Ht; injection Ht; intros; repeat split; assumption).
  destruct Hc as (C1 & C2 & C3 & C4 & C5 & C6).
  destruct a as [|a];
    [| apply (Hone 1%nat); [tauto | lia | rewrite score_one_1; assumption] ].
  destruct e as [|e];
    [| apply (Hone 5%nat); [tauto | lia | rewrite score_one_5; assumption] ].
  destruct b as [|[|[|b]]]; try (apply (Htri 2%nat); [lia | lia | assumption]).
  all: destruct c as [|[|[|c]]]; try (apply (Htri 3%nat); [lia | lia | assumption]).
  all: destruct d as [|[|[|d]]]; try (apply (Htri 4%nat); [lia | lia | assumption]).
  all: destruct f as [|[|[|f]]]; try (apply (Htri 6%nat); [lia | lia | assumption]).
  all: exists dice; split;
    [ intros ->; discriminate H
    | split; [apply subMultiset_refl|] ].
  all: pose proof (low_selection_score dice rules Hv) as L; rewrite Ht in L;
    cbn [n1 n2 n3 n4 n5 n6] in L;
    specialize (L eq_refl eq_refl ltac:(lia) ltac:(lia) ltac:(lia) ltac:(lia)).
  all: destruct L as [L | (E & T & A & L)].
  all: try (apply selection_cascade;
            [ assumption
            | rewrite L; specialize (PP E); lia
            | left; right; left; split; [exact E|];
              apply (threePairsShape_tally dice Hv); rewrite Ht; split; assumption ]).
  all: exfalso; revert H L; unfold hasPossibleMoves, calculateScore;
    tally_form dice Hv; rewrite Ht; clear - PP; score_eval; toggle_cases;
    intros; try discriminate;
    try specialize (PP eq_refl); try specialize (PP ltac:(assumption)); lia.
Qed.

(** X3: for a roll of at most six dice with faces 1..6, under rules whose
    single, triple and (enabled) three-pairs values are positive, the bust
    test says "no move" exactly when the selection test rejects every
    sub-selection of the roll. *)
Theorem bust_iff_no_selection (dice : list nat) (rules : Rules) :
  validFaces dice -> (length dice <= 6)%nat -> positiveValues rules ->
  (hasPossibleMoves dice rules = false <->
   forall s, subMultiset s dice -> isScoringSelection s rules = false).
Proof.
  intros Hv Hlen Hpos. split.
  - intros Hno s Hsub. apply isScoringSelection_zero.
    exact (no_moves_no_selection dice s rules Hv Hlen Hno Hsub).
  - intros Hall. destruct (hasPossibleMoves dice rules) eqn:Hm; [|reflexivity].
    destruct (moves_give_complete_selection dice rules Hv Hpos Hm)
      as (s & _ & Hsub & Hs).
    rewrite (Hall s Hsub) in Hs. discriminate Hs.
Qed.

Lemma bust_iff_no_selection_witness :
  hasPossibleMoves [2; 3; 4; 6; 6; 3]%nat DEFAULT_RULES = false <->
  forall s, subMultiset s [2; 3; 4; 6; 6; 3]%nat ->
            isScoringSelection s DEFAULT_RULES = false.
Proof.
  apply (bust_iff_no_selection [2; 3; 4; 6; 6; 3]%nat DEFAULT_RULES).
  - repeat constructor.
  - cbn; lia.
  - unfold positiveValues; cbn; repeat split; lia.
Defined.

(** ** Bounds of the default scores *)

Lemma in_smallTallies (t : Tally) : (total t <= 6)%nat -> In t smallTallies.
Proof.
  destruct t as [a b c d e f]. unfold total, smallTallies.
  cbn [n1 n2 n3 n4 n5 n6]. intros H. cbv zeta.
  apply in_flat_map; exists a; split; [apply in_seq; lia|].
  apply in_flat_map; exists b; split; [apply in_seq; lia|].
  apply in_flat_map; exists c; split; [apply in_seq; lia|].
  apply in_flat_map; exists d; split; [apply in_seq; lia|].
  apply in_flat_map; exists e; split; [apply in_seq; lia|].
  apply in_map, in_seq. lia.
Qed.

Lemma checkTallies_sound (check : Tally -> bool) :
  checkTallies check = true ->
  forall t, (total t <= 6)%nat -> check t = true.
Proof.
  unfold checkTallies. rewrite forallb_forall. intros H t Ht.
  exact (H t (in_smallTallies t Ht)).
Qed.

(** X4: under the default rules a selection of at most six dice with faces
    1..6 scores between 0 and 5000, and always a multiple of 50. *)
Theorem default_score_bounds (dice : list nat) :
  validFaces dice -> (length dice <= 6)%nat ->
  0 <= calculateScore dice DEFAULT_RULES <= 5000
  /\ calculateScore dice DEFAULT_RULES mod 50 = 0.
Proof.
  intros Hv Hlen.
  assert (Hb : (0 <=? calculateScore dice DEFAULT_RULES)
               && (calculateScore dice DEFAULT_RULES <=? 5000)
               && (calculateScore dice DEFAULT_RULES mod 50 =? 0) = true).
  { unfold calculateScore. tally_form dice Hv. revert Hlen.
    generalize (tally dice). apply checkTallies_sound.
    vm_compute. reflexivity. }
  apply andb_true_iff in Hb as [Hb H3]. apply andb_true_iff in Hb as [H1 H2].
  apply Z.leb_le in H1, H2. apply Z.eqb_eq in H3. auto.
Qed.

Lemma default_score_bounds_witness :
  0 <= calculateScore [1; 1; 1; 1; 1; 1]%nat DEFAULT_RULES <= 5000
  /\ calculateScore [1; 1; 1; 1; 1; 1]%nat DEFAULT_RULES mod 50 = 0.
Proof.
  apply (default_score_bounds [1; 1; 1; 1; 1; 1]%nat).
  - repeat constructor.
  - cbn; lia.
Defined.

(* ================================================================== *)
(** * Further properties of the match state machine *)
(* ================================================================== *)

(** ** toggleSelection *)

Lemma findIndex_updateAt {A : Type} (pred : A -> bool) (f : A -> A) (i : nat)
    (l : list A) :
  (forall x, pred (f x) = pred x) ->
  findIndex pred (updateAt i f l) = findIndex pred l.
Proof.
  intros Hf. revert i. induction l as [|x l IH]; intros [|i]; cbn;
    rewrite ?Hf, ?IH; reflexivity.
Qed.

Lemma updateAt_twice {A : Type} (f : A -> A) (i : nat) (l : list A) :
  (forall x, f (f x) = x) -> updateAt i f (updateAt i f l) = l.
Proof.
  intros Hf. revert i. induction l as [|x l IH]; intros [|i]; cbn;
    rewrite ?Hf, ?IH; reflexivity.
Qed.

Lemma flipSelected_twice (d : Die) : flipSelected (flipSelected d) = d.
Proof. destruct d as [i v s]. unfold flipSelected. cbn. now rewrite negb_involutive. Qed.

Lemma map_updateAt_same {A B : Type} (h : A -> B) (f : A -> A) (i : nat)
    (l : list A) :
  (forall x, h (f x) = h x) -> map h (updateAt i f l) = map h l.
Proof.
  intros Hf. revert i. induction l as [|x l IH]; intros [|i]; cbn;
    rewrite ?Hf, ?IH; reflexivity.
Qed.

Lemma findIndex_no_die (dieId' : string) (l : list Die) :
  Forall (fun d => dieId d <> dieId') l ->
  findIndex (fun d => String.eqb (dieId d) dieId') l = None.
Proof.
  induction 1 as [|d l Hd _ IH]; cbn [findIndex]; [reflexivity|].
  apply String.eqb_neq in Hd. now rewrite Hd, IH.
Qed.

(** X5: toggling the same die twice gives back the state, whoever calls and
    whatever the identifier. *)
Theorem toggleSelection_twice (playerId dieId' : string) (g : GameState) :
  stateOf (toggleSelection playerId dieId'
             (stateOf (toggleSelection playerId dieId' g))) = g.
Proof.
  unfold toggleSelection.
  destruct (isStatus playing g) eqn:Hst; cbn [negb stateOf];
    [|rewrite Hst; reflexivity].
  destruct (getCurrentPlayer g) as [p|] eqn:Hcur; cbn [stateOf];
    [|rewrite Hst, Hcur; reflexivity].
  destruct (String.eqb (id p) playerId) eqn:Hid; cbn [negb stateOf];
    [|rewrite Hst, Hcur; cbn [negb]; rewrite Hid; reflexivity].
  destruct (findIndex _ (currentDice g)) as [i|] eqn:Hfind; cbn [stateOf].
  - unfold isStatus, getCurrentPlayer in *. cbn.
    rewrite Hst, Hcur. cbn [negb]. rewrite Hid. cbn [negb].
    rewrite findIndex_updateAt by reflexivity. rewrite Hfind. cbn.
    rewrite (updateAt_twice _ _ _ flipSelected_twice).
    destruct g; reflexivity.
  - rewrite Hst, Hcur. cbn [negb]. rewrite Hid, Hfind. reflexivity.
Qed.

(** X6: a toggle touches nothing but the selected flags: every other field
    of the match, the values and the identifiers of the dice stay; with an
    identifier that no die carries the current player's call changes nothing
    and still answers [true]. *)
Theorem toggleSelection_frame (playerId dieId' : string) (g : GameState) :
  let g' := stateOf (toggleSelection playerId dieId' g) in
  setCurrentDice (currentDice g) g' = g
  /\ map value (currentDice g') = map value (currentDice g)
  /\ map dieId (currentDice g') = map dieId (currentDice g)
  /\ (forall p,
        gameStatus g = playing -> getCurrentPlayer g = Some p ->
        id p = playerId ->
        Forall (fun d => dieId d <> dieId') (currentDice g) ->
        toggleSelection playerId dieId' g = Returned ToggleTrue g).
Proof.
  cbv zeta. unfold toggleSelection.
  assert (Hg : setCurrentDice (currentDice g) g = g) by (destruct g; reflexivity).
  split; [|split; [|split]].
  - crunch; exact Hg.
  - crunch; try reflexivity. now apply map_updateAt_same.
  - crunch; try reflexivity. now apply map_updateAt_same.
  - intros p Hst Hcur Hid Hall.
    rewrite (proj2 (isStatus_true playing g) Hst), Hcur, Hid, String.eqb_refl.
    cbn [negb].
    now rewrite (findIndex_no_die _ _ Hall).
Qed.

(** ** roll *)

Lemma newDice_unselected (rng : Rng) (n : nat) :
  Forall (fun d => selected d = false) (newDice rng n).
Proof.
  unfold newDice. apply Forall_forall. intros d Hd.
  apply in_map_iff in Hd as (i & <- & _). reflexivity.
Qed.

Lemma newDice_faces (rng : Rng) (n : nat) :
  validFaces (map value (newDice rng n)).
Proof.
  unfold validFaces, newDice. rewrite map_map. cbn [value].
  apply Forall_forall. intros v Hv. apply in_map_iff in Hv as (i & <- & _).
  pose proof (Nat.mod_upper_bound (draw rng i) 6 ltac:(lia)). lia.
Qed.

Lemma default_nonNegative : nonNegativeValues DEFAULT_RULES.
Proof. unfold nonNegativeValues; cbn; repeat split; lia. Qed.

(** A selection that the server accepts scores more than 0. *)
Lemma accepted_selection_scores (values : list nat) :
  isScoringSelection values DEFAULT_RULES = true ->
  0 < calculateScore values DEFAULT_RULES.
Proof.
  intros H. pose proof (calculateScore_nonneg values DEFAULT_RULES default_nonNegative).
  unfold isScoringSelection in H. cbn zeta in H.
  destruct (Z.eqb_spec (calculateScore values DEFAULT_RULES) 0); [discriminate H | lia].
Qed.

(** Only the current player of a match in play rolls. *)
Lemma roll_turn (playerId : string) (rng : Rng) (g g' : GameState)
    (dice : list Die) (fk : bool) (rs : Z) (hot : bool) :
  roll playerId rng g = Returned (RollSuccess dice fk rs hot) g' ->
  gameStatus g = playing
  /\ exists p, getCurrentPlayer g = Some p /\ id p = playerId.
Proof.
  unfold roll. intros H.
  destruct (isStatus playing g) eqn:Hst; cbn [negb] in H; [|discriminate H].
  apply isStatus_true in Hst. split; [assumption|].
  destruct (getCurrentPlayer g) as [p|]; [|discriminate H].
  destruct (String.eqb_spec (id p) playerId) as [Hid | Hid]; cbn [negb] in H;
    [|discriminate H].
  exists p. auto.
Qed.

(** What a successful roll returns and leaves behind. *)
Lemma roll_effect (playerId : string) (rng : Rng) (g g' : GameState)
    (dice : list Die) (fk : bool) (rs : Z) (hot : bool) :
  roll playerId rng g = Returned (RollSuccess dice fk rs hot) g' ->
  currentDice g' = dice
  /\ length dice = diceCountToRoll g'
  /\ Forall (fun d => selected d = false) dice
  /\ validFaces (map value dice)
  /\ fk = negb (hasPossibleMoves (map value dice) DEFAULT_RULES)
  /\ rs = roundAccumulatedScore g'
  /\ rs = roundAccumulatedScore g
          + calculateScore (map value (filter selected (currentDice g))) DEFAULT_RULES
  /\ players g' = players g
  /\ currentPlayerIndex g' = currentPlayerIndex g
  /\ gameStatus g' = playing /\ gameStatus g = playing
  /\ isFinalRound g' = isFinalRound g
  /\ finalRoundTriggeredBy g' = finalRoundTriggeredBy g
  /\ winner g' = winner g.
Proof.
  intros H. pose proof (roll_success _ _ _ _ _ _ _ _ H) as (Hd & Hc & Hn).
  assert (Hst : gameStatus g = playing).
  { unfold roll in H. destruct (isStatus playing g) eqn:E; [|discriminate H].
    now apply isStatus_true. }
  split; [assumption|]. split; [rewrite Hn, length_newDice; congruence|].
  split; [rewrite Hn; apply newDice_unselected|].
  split; [rewrite Hn; apply newDice_faces|].
  revert H. unfold roll, performRoll. crunch;
    intros H; try discriminate H; inversion H; subst; cbn;
    repeat split; try assumption; try reflexivity.
  all: bool_facts.
  all: destruct (currentDice g); cbn in *; try lia; try discriminate.
Qed.

(** X7: what a successful roll returns and leaves behind: the caller is the
    current player of a match in play; the dice returned are the dice on the
    table, as many as [diceCountToRoll], none selected, with faces 1..6; the
    bust flag says that they allow no move; the round score returned is the
    old one plus the score of the selected dice; the players, the current
    seat, the status, the final-round fields and the winner are untouched. *)
Theorem roll_result_facts (playerId : string) (rng : Rng) (g g' : GameState)
    (dice : list Die) (fk : bool) (rs : Z) (hot : bool) :
  roll playerId rng g = Returned (RollSuccess dice fk rs hot) g' ->
  (exists p, getCurrentPlayer g = Some p /\ id p = playerId)
  /\ currentDice g' = dice
  /\ length dice = diceCountToRoll g'
  /\ Forall (fun d => selected d = false) dice
  /\ validFaces (map value dice)
  /\ fk = negb (hasPossibleMoves (map value dice) DEFAULT_RULES)
  /\ rs = roundAccumulatedScore g'
  /\ rs = roundAccumulatedScore g
          + calculateScore (map value (filter selected (currentDice g))) DEFAULT_RULES
  /\ players g' = players g
  /\ currentPlayerIndex g' = currentPlayerIndex g
  /\ gameStatus g' = playing /\ gameStatus g = playing
  /\ isFinalRound g' = isFinalRound g
  /\ finalRoundTriggeredBy g' = finalRoundTriggeredBy g
  /\ winner g' = winner g.
Proof.
  intros H. split.
  - apply (roll_turn _ _ _ _ _ _ _ _ H).
  - apply (roll_effect _ _ _ _ _ _ _ _ H).
Qed.

Lemma roll_result_facts_witness :
  (exists p, getCurrentPlayer seated = Some p /\ id p = "a"%string)
  /\ currentDice firstRoll = currentDice firstRoll
  /\ length (currentDice firstRoll) = diceCountToRoll firstRoll
  /\ Forall (fun d => selected d = false) (currentDice firstRoll)
  /\ validFaces (map value (currentDice firstRoll))
  /\ false = negb (hasPossibleMoves (map value (currentDice firstRoll)) DEFAULT_RULES)
  /\ 0 = roundAccumulatedScore firstRoll
  /\ 0 = roundAccumulatedScore seated
         + calculateScore (map value (filter selected (currentDice seated))) DEFAULT_RULES
  /\ players firstRoll = players seated
  /\ currentPlayerIndex firstRoll = currentPlayerIndex seated
  /\ gameStatus firstRoll = playing /\ gameStatus seated = playing
  /\ isFinalRound firstRoll = isFinalRound seated
  /\ finalRoundTriggeredBy firstRoll = finalRoundTriggeredBy seated
  /\ winner firstRoll = winner seated.
Proof.
  apply (roll_result_facts "a" allOnes seated firstRoll (currentDice firstRoll)
           false 0 false).
  vm_compute. reflexivity.
Defined.

Lemma filter_all_selected (l : list Die) :
  length (filter selected l) = length l <-> Forall (fun d => selected d = true) l.
Proof.
  induction l as [|d l IH]; cbn.
  - split; constructor.
  - pose proof (filter_length_le selected l) as Hle.
    destruct (selected d) eqn:E; cbn; split; intros H.
    + constructor; [assumption | apply IH; lia].
    + inversion H; subst. f_equal. now apply IH.
    + lia.
    + inversion H; subst. congruence.
Qed.

(** X8: in a reachable match a successful roll reports hot dice exactly
    when dice were on the table and every one of them was selected. *)
Theorem hotDice_iff_all_selected (playerId : string) (rng : Rng)
    (g g' : GameState) (dice : list Die) (fk : bool) (rs : Z) (hot : bool) :
  reachable g ->
  roll playerId rng g = Returned (RollSuccess dice fk rs hot) g' ->
  (hot = true <->
   currentDice g <> [] /\ Forall (fun d => selected d = true) (currentDice g)).
Proof.
  intros Hreach. pose proof (reachable_roundInvariant g Hreach) as [Hr Hl].
  assert (Hlen : (length (currentDice g) <= 6)%nat) by lia.
  rewrite <- filter_all_selected.
  pose proof (filter_length_le selected (currentDice g)) as Hle.
  unfold roll, performRoll. crunch;
    intros H; try discriminate H; inversion H; subst; cbn; bool_facts.
  - match goal with
    | Hs : isScoringSelection _ _ = true |- _ =>
        apply accepted_selection_scores in Hs; apply Z.ltb_lt in Hs; rewrite Hs
    end.
    cbn. split; [intros _|reflexivity].
    split; [destruct (currentDice g); [cbn in *; lia | discriminate] | lia].
  - match goal with
    | Hs : isScoringSelection _ _ = true |- _ =>
        apply accepted_selection_scores in Hs; apply Z.ltb_lt in Hs; rewrite Hs
    end.
    cbn [andb].
    destruct (Nat.eqb_spec
                (length (currentDice g) - length (filter selected (currentDice g))) 6).
    + lia.
    + split; [discriminate | lia].
  - split; [discriminate|]. intros [Hne _]. destruct (currentDice g);
      [congruence | cbn in *; lia].
  - split; [discriminate|]. intros [Hne _]. destruct (currentDice g);
      [congruence | cbn in *; lia].
Qed.

Lemma hotDice_iff_all_selected_witness :
  true = true <->
  currentDice (play (selectAll "a") firstRoll) <> []
  /\ Forall (fun d => selected d = true)
       (currentDice (play (selectAll "a") firstRoll)).
Proof.
  apply (hotDice_iff_all_selected "a" allOnes (play (selectAll "a") firstRoll)
           hotDiceRoll (currentDice hotDiceRoll) false 5000 true).
  - apply reachable_play, reachable_firstRoll.
  - vm_compute. reflexivity.
Defined.

(** ** Invariants of the reachable states *)

Lemma Forall_updateAt {A : Type} (P : A -> Prop) (f : A -> A) (i : nat) (l : list A) :
  (forall x, P x -> P (f x)) -> Forall P l -> Forall P (updateAt i f l).
Proof.
  intros Hf H. revert i. induction H as [|x l Hx Hl IH]; intros [|i]; cbn;
    constructor; auto.
Qed.

Lemma Forall_filter_keep {A : Type} (P : A -> Prop) (f : A -> bool) (l : list A) :
  Forall P l -> Forall P (filter f l).
Proof.
  induction 1 as [|x l Hx _ IH]; cbn; [constructor|].
  destruct (f x); [constructor|]; assumption.
Qed.

(** What [endGame] and [nextTurn] leave alone. *)
Lemma endGame_frame (g : GameState) :
  players (stateOf (endGame g)) = players g
  /\ roundAccumulatedScore (stateOf (endGame g)) = roundAccumulatedScore g
  /\ gameStatus (stateOf (endGame g)) = finished.
Proof.
  unfold endGame, bind, modify, getState, throwTypeError.
  cbn [players setGameStatus].
  destruct (nth_error (players g) 0) as [p1|];
    [destruct (nth_error (players g) 1) as [p2|]|]; cbn; auto.
  destruct (score p2 <? score p1); [cbn; auto|].
  destruct (score p1 <? score p2); cbn; auto.
Qed.

Lemma nextTurn_frame (g : GameState) :
  players (stateOf (nextTurn g)) = players g
  /\ roundAccumulatedScore (stateOf (nextTurn g)) = 0
  /\ currentPlayerIndex (stateOf (nextTurn g)) = ((currentPlayerIndex g + 1) mod 2)%nat
  /\ currentDice (stateOf (nextTurn g)) = []
  /\ diceCountToRoll (stateOf (nextTurn g)) = 6%nat
  /\ isFinalRound (stateOf (nextTurn g)) = isFinalRound g
  /\ finalRoundTriggeredBy (stateOf (nextTurn g)) = finalRoundTriggeredBy g.
Proof.
  rewrite nextTurn_eq. destruct (_ && _).
  - pose proof (endGame_frame (turned g)) as (Hp & Hr & _).
    rewrite Hp, Hr. split; [reflexivity|]. split; [reflexivity|].
    unfold endGame, bind, modify, getState, throwTypeError.
    cbn [players setGameStatus turned setCurrentDice setDiceCountToRoll
         setRoundAccumulatedScore setCurrentPlayerIndex].
    destruct (nth_error (players g) 0) as [p1|];
      [destruct (nth_error (players g) 1) as [p2|]|];
      cbn -[Nat.modulo]; try (repeat split; reflexivity).
    destruct (score p2 <? score p1); [cbn -[Nat.modulo]; repeat split; reflexivity|].
    destruct (score p1 <? score p2); cbn -[Nat.modulo]; repeat split; reflexivity.
  - cbn -[Nat.modulo]. repeat split; reflexivity.
Qed.

Lemma bank_scores (s : string) (g : GameState) :
  seatsInvariant g -> scoresInvariant g -> scoresInvariant (stateOf (bank s g)).
Proof.
  intros (Hi & Hp & Hf) Hinv. pose proof Hinv as [Hr Hs]. unfold bank.
  destruct (isStatus playing g) eqn:Hst; cbn [negb]; [|exact Hinv].
  apply isStatus_true in Hst.
  destruct (getCurrentPlayer g) as [p|] eqn:Hcur; [|exact Hinv].
  destruct (negb _); [exact Hinv|].
  assert (Hlen : length (players g) = 2%nat) by (apply Hp; congruence).
  assert (Hb : forall n, 0 <= n -> scoresInvariant (stateOf (bankRound n g))).
  { intros n Hn.
    destruct (bankRound_spec g n p Hlen Hcur Hst)
      as (g' & -> & Hpl & _ & Hr' & _).
    unfold scoresInvariant. cbn [stateOf]. rewrite Hr', Hpl.
    split; [lia|]. apply Forall_updateAt; [|assumption].
    intros x Hx. cbn. lia. }
  destruct (0 <? _)%nat.
  - destruct (isScoringSelection _ _) eqn:Hsel; [|exact Hinv].
    apply Hb. apply accepted_selection_scores in Hsel. lia.
  - destruct (_ && _); [exact Hinv | apply Hb; lia].
Qed.

Ltac scores_leaf :=
  unfold scoresInvariant; cbn;
  try solve [ split;
              [ first [assumption | lia]
              | repeat first
                  [ assumption
                  | apply Forall_updateAt; [intros ? ?; cbn; lia|]
                  | apply Forall_filter_keep
                  | apply Forall_app; split
                  | apply Forall_cons; [cbn; lia|]
                  | apply Forall_nil ] ] ].

Lemma scoresInvariant_step (a : Action) (g : GameState) :
  seatsInvariant g -> scoresInvariant g -> scoresInvariant (step a g).
Proof.
  intros Hseats Hinv. pose proof Hinv as [Hr Hs]. destruct a; cbn [step].
  - unfold joinGame, addPlayer, start, resetRound. crunch; scores_leaf.
  - unfold leaveGame. crunch; scores_leaf.
  - unfold roll, performRoll. crunch; bool_facts;
      try match goal with
          | Hs : isScoringSelection _ _ = true |- _ =>
              apply accepted_selection_scores in Hs
          end;
      unfold scoresInvariant; cbn; split; first [assumption | lia].
  - unfold toggleSelection. crunch; scores_leaf.
  - apply bank_scores; assumption.
  - unfold farkle, bind, modify.
    pose proof (nextTurn_frame (setRoundAccumulatedScore 0 g)) as (Hp & Hr' & _).
    unfold scoresInvariant. rewrite Hp, Hr'. split; [lia | exact Hs].
  - unfold restart, resetRound. crunch; scores_leaf.
    unfold scoresInvariant; cbn. split; [lia|].
    apply Forall_forall. intros p Hp. apply in_map_iff in Hp as (q & <- & _).
    cbn. lia.
Qed.

(** X9: in every reachable state the round score and every player's total
    are at least 0. *)
Theorem scores_never_negative (g : GameState) :
  reachable g ->
  0 <= roundAccumulatedScore g /\ Forall (fun p => 0 <= score p) (players g).
Proof.
  intros H. change (scoresInvariant g).
  induction H as [room | a g Hg IH].
  - unfold scoresInvariant. cbn. split; [lia | constructor].
  - apply scoresInvariant_step; [apply reachable_seats, Hg | exact IH].
Qed.

Lemma scores_never_negative_witness :
  0 <= roundAccumulatedScore finishedMatch
  /\ Forall (fun p => 0 <= score p) (players finishedMatch).
Proof.
  apply (scores_never_negative finishedMatch reachable_finishedMatch).
Defined.

(** ** Status, winner and seats *)

(** The status and the winner after the turn is passed: the match ends with
    a winner or a tie recorded, or both stay as they were. *)
Lemma nextTurn_status_winner (g : GameState) :
  length (players g) = 2%nat ->
  (gameStatus (stateOf (nextTurn g)) = finished
   /\ winner (stateOf (nextTurn g)) <> noWinner
   /\ isFinalRound g = true)
  \/ (gameStatus (stateOf (nextTurn g)) = gameStatus g
      /\ winner (stateOf (nextTurn g)) = winner g).
Proof.
  intros Hlen. rewrite nextTurn_eq.
  destruct (isFinalRound g) eqn:Ef; cbn [andb]; [|right; split; reflexivity].
  destruct (optNatEqb _ _); [|right; split; reflexivity].
  left. destruct (players g) as [|p1 [|p2 [|? ?]]] eqn:Epl; try discriminate Hlen.
  rewrite (endGame_two (turned g) p1 p2 Epl). cbn.
  split; [reflexivity|]. split; [|reflexivity].
  destruct (score p2 <? score p1); [discriminate|].
  destruct (score p1 <? score p2); discriminate.
Qed.

(** The state a bank leaves: the state before, or the turn passed from a
    match in play with the same winner and two players. *)
Lemma bank_passes_turn (s : string) (g : GameState) :
  seatsInvariant g ->
  stateOf (bank s g) = g
  \/ exists g0, stateOf (bank s g) = stateOf (nextTurn g0)
                /\ gameStatus g = playing /\ gameStatus g0 = playing
                /\ winner g0 = winner g /\ length (players g0) = 2%nat.
Proof.
  intros (Hi & Hp & Hf). unfold bank.
  destruct (isStatus playing g) eqn:Hst; cbn [negb]; [|left; reflexivity].
  apply isStatus_true in Hst.
  destruct (getCurrentPlayer g) as [p|] eqn:Hcur; [|left; reflexivity].
  destruct (negb _); [left; reflexivity|].
  assert (Hlen : length (players g) = 2%nat) by (apply Hp; congruence).
  assert (Hb : forall n,
             exists g0, stateOf (bankRound n g) = stateOf (nextTurn g0)
                        /\ gameStatus g = playing /\ gameStatus g0 = playing
                        /\ winner g0 = winner g /\ length (players g0) = 2%nat).
  { intros n. rewrite (bankRound_eq g n p Hcur Hst).
    exists (flagged (addScore (roundAccumulatedScore g + n) p) (banked n g)).
    split; [destruct (nextTurn _); reflexivity|].
    rewrite flagged_status, flagged_players. unfold banked. cbn.
    rewrite length_updateAt. repeat split; try assumption.
    unfold flagged. destruct (_ && _); reflexivity. }
  destruct (0 <? _)%nat.
  - destruct (isScoringSelection _ _); [right; apply Hb | left; reflexivity].
  - destruct (_ && _); [left; reflexivity | right; apply Hb].
Qed.

(** The status a bank leaves. *)
Lemma bank_status (s : string) (g : GameState) :
  seatsInvariant g ->
  stateOf (bank s g) = g
  \/ (gameStatus g = playing
      /\ gameStatus (stateOf (bank s g))
         = if isFinalRound g
              && optNatEqb ((currentPlayerIndex g + 1) mod 2) (finalRoundTriggeredBy g)
           then finished else playing).
Proof.
  intros (Hi & Hp & Hf). unfold bank.
  destruct (isStatus playing g) eqn:Hst; cbn [negb]; [|left; reflexivity].
  apply isStatus_true in Hst.
  destruct (getCurrentPlayer g) as [p|] eqn:Hcur; [|left; reflexivity].
  destruct (negb _); [left; reflexivity|].
  assert (Hlen : length (players g) = 2%nat) by (apply Hp; congruence).
  assert (Hb : forall n,
             gameStatus (stateOf (bankRound n g))
             = if isFinalRound g
                  && optNatEqb ((currentPlayerIndex g + 1) mod 2) (finalRoundTriggeredBy g)
               then finished else playing).
  { intros n.
    destruct (bankRound_spec g n p Hlen Hcur Hst)
      as (g' & -> & _ & _ & _ & _ & _ & _ & _ & Hs).
    exact Hs. }
  destruct (0 <? length (filter selected (currentDice g)))%nat.
  - destruct (isScoringSelection _ _); [right; auto | left; reflexivity].
  - destruct ((0 <? length (currentDice g))%nat && (roundAccumulatedScore g =? 0));
      [left; reflexivity | right; auto].
Qed.

Ltac status_leaf :=
  unfold statusInvariant; cbn;
  rewrite ?length_updateAt, ?length_map, ?length_app in *; cbn [length] in *;
  rewrite ?andb_true_r, ?andb_false_r in *;
  bool_facts;
  try match goal with Hs : gameStatus _ = _ |- _ => rewrite ?Hs end;
  try solve [ intuition (first [congruence | lia]) ].

Lemma statusInvariant_step (a : Action) (g : GameState) :
  seatsInvariant g -> statusInvariant g -> statusInvariant (step a g).
Proof.
  intros Hseats Hinv. pose proof Hseats as (Hi & Hp & Hf).
  pose proof Hinv as (Hw & Hl).
  assert (Hwn : winner g = noWinner \/ winner g <> noWinner)
    by (destruct (winner g); auto; right; discriminate).
  destruct a; cbn [step].
  - unfold joinGame, addPlayer, start, resetRound, isStatus.
    by_status g Hp Hf Hst; crunch_with Hst; status_leaf.
  - unfold leaveGame, isStatus.
    by_status g Hp Hf Hst; crunch_with Hst; status_leaf.
    all: pose proof (filter_length_le
                       (fun pl => negb (String.eqb (id pl) socketId))
                       (updateAt n (fun p => mkPlayer (id p) (name p) (score p) false)
                          (players g))) as Hle;
      rewrite length_updateAt in Hle;
      intuition (first [congruence | lia]).
  - unfold roll, performRoll. crunch; status_leaf.
  - unfold toggleSelection. crunch; status_leaf.
  - destruct (bank_passes_turn socketId g Hseats)
      as [-> | (g0 & -> & Hst & Hst0 & Hw0 & Hlen0)]; [exact Hinv|].
    pose proof (nextTurn_frame g0) as (Hpl & _).
    unfold statusInvariant. rewrite Hpl, Hlen0.
    destruct (nextTurn_status_winner g0 Hlen0) as [(-> & Hwin & _) | (-> & ->)].
    + intuition (first [congruence | lia]).
    + rewrite Hst0, Hw0. rewrite Hst in Hw. intuition (first [congruence | lia]).
  - unfold farkle, bind, modify.
    set (g0 := setRoundAccumulatedScore 0 g).
    pose proof (nextTurn_frame g0) as (Hpl & _).
    unfold statusInvariant. rewrite Hpl. change (players g0) with (players g).
    rewrite nextTurn_eq.
    change (isFinalRound g0) with (isFinalRound g).
    destruct (isFinalRound g) eqn:Ef; cbn [andb]; [|exact Hinv].
    destruct (optNatEqb _ _); [|exact Hinv].
    specialize (Hf eq_refl). specialize (Hp Hf).
    destruct (players g) as [|p1 [|p2 [|? ?]]] eqn:Epl; try discriminate Hp.
    rewrite (endGame_two (turned g0) p1 p2 Epl). cbn.
    split; [|intuition (first [congruence | lia])].
    split; [|reflexivity]. intros _.
    destruct (score p2 <? score p1); [discriminate|].
    destruct (score p1 <? score p2); discriminate.
  - unfold restart, resetRound, isStatus.
    by_status g Hp Hf Hst; crunch_with Hst; status_leaf.
Qed.

Lemma reachable_status (g : GameState) :
  reachable g -> statusInvariant g.
Proof.
  induction 1 as [room | a g Hg IH].
  - unfold statusInvariant. cbn. split; split; try discriminate; try lia.
    + intros Hn. now contradiction Hn.
    + reflexivity.
  - apply statusInvariant_step; [apply reachable_seats, Hg | exact IH].
Qed.

Lemma reachable_two_seats (g : GameState) :
  reachable g -> (length (players g) <= 2)%nat.
Proof.
  intros H. pose proof (reachable_status g H) as (_ & Hl).
  pose proof (reachable_seats g H) as (_ & Hp & _).
  destruct (gameStatus g) eqn:Hst.
  - assert ((length (players g) < 2)%nat) by (apply Hl; reflexivity). lia.
  - rewrite Hp; [lia | discriminate].
  - rewrite Hp; [lia | discriminate].
Qed.

(** X10: in every reachable state a winner (or a tie) is recorded exactly
    when the match is finished, the room holds at most two players, and the
    match is waiting exactly while a seat is empty. *)
Theorem status_matches_seats_and_winner (g : GameState) :
  reachable g ->
  (gameStatus g = finished <-> winner g <> noWinner)
  /\ (gameStatus g = waiting <-> (length (players g) < 2)%nat)
  /\ (length (players g) <= 2)%nat.
Proof.
  intros H. destruct (reachable_status g H) as (Hw & Hl).
  split; [exact Hw|]. split; [exact Hl|]. apply reachable_two_seats, H.
Qed.

Lemma status_matches_seats_and_winner_witness :
  (gameStatus finishedMatch = finished <-> winner finishedMatch <> noWinner)
  /\ (gameStatus finishedMatch = waiting <-> (length (players finishedMatch) < 2)%nat)
  /\ (length (players finishedMatch) <= 2)%nat.
Proof.
  apply (status_matches_seats_and_winner finishedMatch reachable_finishedMatch).
Defined.

(** X11: how the status moves in one action.  A started match never waits
    again; a waiting match starts only by a join, and never ends; a match in
    play ends only when a turn is passed (a bank or the resolution of a bust)
    in the final round; a finished match plays again only by a restart. *)
Theorem status_transitions (a : Action) (g : GameState) :
  reachable g ->
  (gameStatus g <> waiting -> gameStatus (step a g) <> waiting)
  /\ (gameStatus g = waiting ->
      gameStatus (step a g) = waiting
      \/ (gameStatus (step a g) = playing
          /\ (exists s n, a = AJoin s n)
          /\ length (players (step a g)) = 2%nat
          /\ currentPlayerIndex (step a g) = 0%nat))
  /\ (gameStatus g = playing ->
      gameStatus (step a g) = playing
      \/ (gameStatus (step a g) = finished
          /\ isFinalRound g = true
          /\ (a = AFarkle \/ exists s, a = ABank s)))
  /\ (gameStatus g = finished ->
      gameStatus (step a g) = finished
      \/ (gameStatus (step a g) = playing /\ a = ARestart)).
Proof.
  intros H. pose proof (reachable_seats g H) as Hseats.
  pose proof Hseats as (Hi & Hp & Hf).
  destruct a; cbn [step].
  - unfold joinGame, addPlayer, start, resetRound, isStatus.
    by_status g Hp Hf Hst; crunch_with Hst;
      rewrite ?length_updateAt, ?length_map, ?length_app in *; cbn [length] in *;
      bool_facts;
      repeat split; intros; try congruence; auto;
      try (right; repeat split; eauto; lia).
  - unfold leaveGame, isStatus.
    by_status g Hp Hf Hst; crunch_with Hst;
      repeat split; intros; try congruence; auto.
  - unfold roll, performRoll. crunch;
      repeat split; intros; try congruence; auto.
  - unfold toggleSelection. crunch;
      repeat split; intros; try congruence; auto.
  - destruct (bank_status socketId g Hseats) as [-> | (Hst & ->)];
      [repeat split; intros; try congruence; auto|].
    destruct (isFinalRound g); cbn [andb];
      [destruct (optNatEqb _ _)|];
      repeat split; intros; try congruence; auto.
    right. repeat split; eauto.
  - unfold farkle, bind, modify.
    set (g0 := setRoundAccumulatedScore 0 g).
    assert (Hne : gameStatus g <> waiting -> length (players g0) = 2%nat) by exact Hp.
    rewrite nextTurn_eq. change (isFinalRound g0) with (isFinalRound g).
    destruct (isFinalRound g) eqn:Ef; cbn [andb];
      [|cbn; repeat split; intros; try congruence; auto].
    destruct (optNatEqb _ _);
      [|cbn; repeat split; intros; try congruence; auto].
    specialize (Hf eq_refl). specialize (Hp Hf).
    destruct (players g) as [|p1 [|p2 [|? ?]]] eqn:Epl; try discriminate Hp.
    rewrite (endGame_two (turned g0) p1 p2 Epl). cbn.
    repeat split; intros; try congruence; auto.
  - unfold restart, resetRound, isStatus.
    by_status g Hp Hf Hst; crunch_with Hst;
      repeat split; intros; try congruence; auto.
Qed.

Lemma status_transitions_witness :
  (gameStatus finishedMatch <> waiting ->
   gameStatus (step ARestart finishedMatch) <> waiting)
  /\ (gameStatus finishedMatch = waiting ->
      gameStatus (step ARestart finishedMatch) = waiting
      \/ (gameStatus (step ARestart finishedMatch) = playing
          /\ (exists s n, ARestart = AJoin s n)
          /\ length (players (step ARestart finishedMatch)) = 2%nat
          /\ currentPlayerIndex (step ARestart finishedMatch) = 0%nat))
  /\ (gameStatus finishedMatch = playing ->
      gameStatus (step ARestart finishedMatch) = playing
      \/ (gameStatus (step ARestart finishedMatch) = finished
          /\ isFinalRound finishedMatch = true
          /\ (ARestart = AFarkle \/ exists s, ARestart = ABank s)))
  /\ (gameStatus finishedMatch = finished ->
      gameStatus (step ARestart finishedMatch) = finished
      \/ (gameStatus (step ARestart finishedMatch) = playing /\ ARestart = ARestart)).
Proof.
  apply (status_transitions ARestart finishedMatch reachable_finishedMatch).
Defined.

(** ** A bust, and what the server makes of it *)

Lemma cnt_filter_le {A : Type} (f : A -> nat) (keep : A -> bool) (l : list A) (k : nat) :
  (cnt k (map f (filter keep l)) <= cnt k (map f l))%nat.
Proof.
  unfold cnt. induction l as [|x l IH]; cbn; [lia|].
  destruct (keep x); cbn; destruct (Nat.eq_dec (f x) k); lia.
Qed.

Lemma selected_subMultiset (dice : list Die) :
  subMultiset (map value (filter selected dice)) (map value dice).
Proof. intros k. apply cnt_filter_le. Qed.

(** The dice on the table were rolled: faces 1..6. *)
Lemma facesInvariant_step (a : Action) (g : GameState) :
  seatsInvariant g ->
  validFaces (map value (currentDice g)) ->
  validFaces (map value (currentDice (step a g))).
Proof.
  intros Hseats Hinv. destruct a; cbn [step].
  - unfold joinGame, addPlayer, start, resetRound. crunch;
      first [assumption | constructor].
  - unfold leaveGame. crunch; assumption.
  - destruct (roll_state socketId rng g) as [-> | [_ ->]];
      [assumption | apply newDice_faces].
  - unfold toggleSelection. crunch;
      rewrite ?(map_updateAt_same value flipSelected) by reflexivity; assumption.
  - destruct (bank_passes_turn socketId g Hseats) as [-> | (g0 & -> & _)];
      [assumption|].
    pose proof (nextTurn_frame g0) as (_ & _ & _ & -> & _). constructor.
  - unfold farkle, bind, modify.
    pose proof (nextTurn_frame (setRoundAccumulatedScore 0 g))
      as (_ & _ & _ & -> & _).
    constructor.
  - unfold restart, resetRound. crunch; first [assumption | constructor].
Qed.

Lemma reachable_faces (g : GameState) :
  reachable g ->
  validFaces (map value (currentDice g)) /\ (length (currentDice g) <= 6)%nat.
Proof.
  intros H. split.
  - induction H as [room | a g Hg IH]; [constructor|].
    apply facesInvariant_step; [apply reachable_seats, Hg | exact IH].
  - pose proof (reachable_roundInvariant g H) as [Hr Hl]. lia.
Qed.

Lemma reachable_current_player (g : GameState) :
  reachable g -> gameStatus g <> waiting ->
  exists p, getCurrentPlayer g = Some p.
Proof.
  intros H Hst. pose proof (reachable_seats g H) as (Hi & Hp & _).
  specialize (Hp Hst). unfold getCurrentPlayer.
  destruct (nth_error (players g) (currentPlayerIndex g)) as [p|] eqn:E; [eauto|].
  apply nth_error_None in E. lia.
Qed.

(** X12: on a table of dice without any move (a bust), every selection that
    the current player makes is refused, by [roll] and by [bank] alike, and
    the state stays as it is. *)
Theorem bust_table_refuses_selection (playerId : string) (rng : Rng)
    (g : GameState) (p : Player) :
  reachable g ->
  gameStatus g = playing ->
  getCurrentPlayer g = Some p -> id p = playerId ->
  hasPossibleMoves (map value (currentDice g)) DEFAULT_RULES = false ->
  filter selected (currentDice g) <> [] ->
  roll playerId rng g = Returned (RollError "Invalid selection") g
  /\ bank playerId g = Returned (BankError "Invalid selection") g.
Proof.
  intros Hreach Hst Hcur Hid Hbust Hsel.
  pose proof (reachable_faces g Hreach) as [Hv Hlen].
  assert (Hno : isScoringSelection (map value (filter selected (currentDice g)))
                  DEFAULT_RULES = false).
  { apply isScoringSelection_zero.
    apply (no_moves_no_selection (map value (currentDice g))); try assumption.
    - now rewrite length_map.
    - apply selected_subMultiset. }
  assert (Hpos : (0 < length (filter selected (currentDice g)))%nat).
  { destruct (filter selected (currentDice g)); [congruence | cbn; lia]. }
  assert (Hdice : (0 < length (currentDice g))%nat).
  { pose proof (filter_length_le selected (currentDice g)). lia. }
  apply isStatus_true in Hst.
  unfold roll, bank. rewrite Hst, Hcur, Hid, String.eqb_refl, Hno. cbn [negb].
  apply Nat.ltb_lt in Hpos, Hdice. rewrite Hpos, Hdice.
  apply Nat.ltb_lt in Hpos.
  destruct (Nat.eqb_spec (length (filter selected (currentDice g))) 0); [lia|].
  split; reflexivity.
Qed.

Lemma bust_table_refuses_selection_witness :
  roll "a" allOnes (play [AToggle "a" "0"] bustRoll)
  = Returned (RollError "Invalid selection") (play [AToggle "a" "0"] bustRoll)
  /\ bank "a" (play [AToggle "a" "0"] bustRoll)
     = Returned (BankError "Invalid selection") (play [AToggle "a" "0"] bustRoll).
Proof.
  apply (bust_table_refuses_selection "a" allOnes
           (play [AToggle "a" "0"] bustRoll) (mkPlayer "a" "Alice" 0 true)).
  - unfold bustRoll. do 2 apply reachable_play. apply reachable_firstRoll.
  - reflexivity.
  - reflexivity.
  - reflexivity.
  - reflexivity.
  - vm_compute. discriminate.
Defined.

(** X13: the bust flag of a roll binds nobody.  Right after any successful
    roll, bust or not, a bank by the roller without a selection is refused
    when the round score is 0 and otherwise succeeds: the round score goes
    to the roller's total, the round is reset (score 0, no dice on the table,
    six dice to roll) and the seat goes to the other player.  The resolution
    of the bust that follows then hands the seat back to the roller. *)
Theorem bank_open_after_roll (playerId : string) (rng : Rng) (g g1 : GameState)
    (dice : list Die) (fk : bool) (rs : Z) (hot : bool) :
  reachable g ->
  roll playerId rng g = Returned (RollSuccess dice fk rs hot) g1 ->
  (rs = 0 -> bank playerId g1 = Returned (BankError "Cannot bank 0") g1)
  /\ (rs <> 0 ->
      exists g2,
        bank playerId g1 = Returned BankSuccess g2
        /\ players g2 = updateAt (currentPlayerIndex g) (addScore rs) (players g)
        /\ roundAccumulatedScore g2 = 0
        /\ currentDice g2 = []
        /\ diceCountToRoll g2 = 6%nat
        /\ currentPlayerIndex g2 = ((currentPlayerIndex g + 1) mod 2)%nat
        /\ currentPlayerIndex (stateOf (farkle g2)) = currentPlayerIndex g).
Proof.
  intros Hreach Hroll.
  pose proof (roll_turn _ _ _ _ _ _ _ _ Hroll) as (Hst & p & Hcur & Hid).
  pose proof (roll_effect _ _ _ _ _ _ _ _ Hroll)
    as (Hd & Hlen & Hun & _ & _ & Hrs & _ & Hpl & Hidx & Hst1 & _).
  pose proof (reachable_seats g Hreach) as (Hi & Hp & _).
  assert (Hreach1 : reachable g1).
  { replace g1 with (step (ARoll playerId rng) g);
      [now constructor | cbn; now rewrite Hroll]. }
  pose proof (reachable_roundInvariant g1 Hreach1) as [Hr1 _].
  assert (Hcur1 : getCurrentPlayer g1 = Some p).
  { unfold getCurrentPlayer in *. now rewrite Hpl, Hidx. }
  assert (Hlen1 : length (players g1) = 2%nat).
  { rewrite Hpl. apply Hp. congruence. }
  assert (Hsel : filter selected (currentDice g1) = []).
  { rewrite Hd. now apply filter_none_selected. }
  assert (Hdice : (0 <? length (currentDice g1))%nat = true).
  { apply Nat.ltb_lt. rewrite Hd, Hlen. lia. }
  assert (Hbank : bank playerId g1
                  = if roundAccumulatedScore g1 =? 0
                    then Returned (BankError "Cannot bank 0") g1
                    else bankRound 0 g1).
  { unfold bank. apply isStatus_true in Hst1.
    rewrite Hst1, Hcur1, Hid, String.eqb_refl, Hsel, Hdice. reflexivity. }
  rewrite Hbank, <- Hrs. split.
  - intros ->. reflexivity.
  - intros Hne. destruct (Z.eqb_spec rs 0); [contradiction|].
    destruct (bankRound_spec g1 0 p Hlen1 Hcur1 Hst1)
      as (g2 & -> & Hpl2 & Hidx2 & Hr2 & Hcount2 & Hdice2 & _).
    exists g2. split; [reflexivity|].
    rewrite Hpl2, Hidx2, Hr2, Hcount2, Hdice2, Hpl, Hidx, <- Hrs, Z.add_0_r.
    repeat split.
    unfold farkle, bind, modify.
    pose proof (nextTurn_frame (setRoundAccumulatedScore 0 g2))
      as (_ & _ & -> & _).
    cbn [currentPlayerIndex setRoundAccumulatedScore]. rewrite Hidx2, Hidx.
    destruct (currentPlayerIndex g) as [|[|?]]; [reflexivity | reflexivity | lia].
Qed.

Lemma bank_open_after_roll_witness :
  (100 = 0 -> bank "a" bustRoll = Returned (BankError "Cannot bank 0") bustRoll)
  /\ (100 <> 0 ->
      exists g2,
        bank "a" bustRoll = Returned BankSuccess g2
        /\ players g2
           = updateAt (currentPlayerIndex (play [AToggle "a" "0"] firstRoll))
               (addScore 100) (players (play [AToggle "a" "0"] firstRoll))
        /\ roundAccumulatedScore g2 = 0
        /\ currentDice g2 = []
        /\ diceCountToRoll g2 = 6%nat
        /\ currentPlayerIndex g2
           = ((currentPlayerIndex (play [AToggle "a" "0"] firstRoll) + 1) mod 2)%nat
        /\ currentPlayerIndex (stateOf (farkle g2))
           = currentPlayerIndex (play [AToggle "a" "0"] firstRoll)).
Proof.
  apply (bank_open_after_roll "a" bustRng (play [AToggle "a" "0"] firstRoll)
           bustRoll (currentDice bustRoll) true 100 false).
  - apply reachable_play, reachable_firstRoll.
  - vm_compute. reflexivity.
Defined.

(** X14: the resolution of a bust in a reachable match never throws; it
    discards the round (score 0, no dice on the table, six dice to roll),
    passes the seat and leaves the players, their totals and the final-round
    fields alone; the match ends exactly when the final round is on and the
    seat comes back to the player who triggered it. *)
Theorem farkle_discards_round (g : GameState) :
  reachable g ->
  exists g',
    farkle g = Returned tt g'
    /\ players g' = players g
    /\ roundAccumulatedScore g' = 0
    /\ currentDice g' = []
    /\ diceCountToRoll g' = 6%nat
    /\ currentPlayerIndex g' = ((currentPlayerIndex g + 1) mod 2)%nat
    /\ isFinalRound g' = isFinalRound g
    /\ finalRoundTriggeredBy g' = finalRoundTriggeredBy g
    /\ gameStatus g'
       = (if isFinalRound g
             && optNatEqb ((currentPlayerIndex g + 1) mod 2) (finalRoundTriggeredBy g)
          then finished else gameStatus g).
Proof.
  intros Hreach. pose proof (reachable_seats g Hreach) as (Hi & Hp & Hf).
  set (g0 := setRoundAccumulatedScore 0 g).
  pose proof (nextTurn_frame g0) as (Hpl & Hr & Hidx & Hd & Hc & Hfin & Htr).
  assert (Hret : nextTurn g0 = Returned tt (stateOf (nextTurn g0))
                 /\ gameStatus (stateOf (nextTurn g0))
                    = (if isFinalRound g
                          && optNatEqb ((currentPlayerIndex g + 1) mod 2)
                               (finalRoundTriggeredBy g)
                       then finished else gameStatus g)).
  { rewrite nextTurn_eq.
    change (isFinalRound g0) with (isFinalRound g).
    change (currentPlayerIndex g0) with (currentPlayerIndex g).
    change (finalRoundTriggeredBy g0) with (finalRoundTriggeredBy g).
    destruct (isFinalRound g) eqn:Ef; cbn [andb]; [|split; reflexivity].
    destruct (optNatEqb _ _); [|split; reflexivity].
    specialize (Hf eq_refl). specialize (Hp Hf).
    destruct (players g) as [|p1 [|p2 [|? ?]]] eqn:Epl; try discriminate Hp.
    rewrite (endGame_two (turned g0) p1 p2 Epl). split; reflexivity. }
  destruct Hret as [Hret Hst].
  exists (stateOf (nextTurn g0)).
  split; [unfold farkle, bind, modify; fold g0; rewrite Hret; reflexivity|].
  repeat split; assumption.
Qed.

Lemma farkle_discards_round_witness :
  exists g',
    farkle bustRoll = Returned tt g'
    /\ players g' = players bustRoll
    /\ roundAccumulatedScore g' = 0
    /\ currentDice g' = []
    /\ diceCountToRoll g' = 6%nat
    /\ currentPlayerIndex g' = ((currentPlayerIndex bustRoll + 1) mod 2)%nat
    /\ isFinalRound g' = isFinalRound bustRoll
    /\ finalRoundTriggeredBy g' = finalRoundTriggeredBy bustRoll
    /\ gameStatus g'
       = (if isFinalRound bustRoll
             && optNatEqb ((currentPlayerIndex bustRoll + 1) mod 2)
                  (finalRoundTriggeredBy bustRoll)
          then finished else gameStatus bustRoll).
Proof.
  apply (farkle_discards_round bustRoll).
  unfold bustRoll. apply reachable_play, reachable_firstRoll.
Defined.

(** ** Joining and leaving a room *)

Lemma findIndex_Some {A : Type} (pred : A -> bool) (l : list A) (i : nat) :
  findIndex pred l = Some i ->
  exists x, nth_error l i = Some x /\ pred x = true.
Proof.
  revert i. induction l as [|x l IH]; intros i H; cbn in H; [discriminate H|].
  destruct (pred x) eqn:Hx.
  - injection H as <-. exists x. auto.
  - destruct (findIndex pred l) as [j|]; [|discriminate H].
    injection H as <-. apply (IH j eq_refl).
Qed.

Lemma findIndex_None {A : Type} (pred : A -> bool) (l : list A) :
  findIndex pred l = None <-> Forall (fun x => pred x = false) l.
Proof.
  induction l as [|x l IH]; cbn.
  - split; [constructor | reflexivity].
  - destruct (pred x) eqn:Hx.
    + split; [discriminate|]. intros H. inversion H; subst. congruence.
    + destruct (findIndex pred l) as [j|].
      * split; [discriminate|]. intros H. inversion H; subst.
        assert (Hj : Some j = None) by now apply IH.
        discriminate Hj.
      * split; [|reflexivity]. intros _. constructor; [assumption | now apply IH].
Qed.

Lemma updateAt_compose {A : Type} (f h : A -> A) (i : nat) (l : list A) :
  updateAt i f (updateAt i h l) = updateAt i (fun x => f (h x)) l.
Proof.
  revert i. induction l as [|x l IH]; intros [|i]; cbn; rewrite ?IH; reflexivity.
Qed.

Lemma nth_error_snoc_other {A : Type} (l : list A) (x : A) (j : nat) :
  j <> length l -> nth_error (l ++ [x]) j = nth_error l j.
Proof.
  intros Hj. destruct (Nat.lt_ge_cases j (length l)) as [Hlt | Hge].
  - now apply nth_error_app1.
  - rewrite (proj2 (nth_error_None l j)) by lia.
    apply nth_error_None. rewrite length_app. cbn. lia.
Qed.

(** The players after a join, by the three ways to get a seat. *)
Lemma joinGame_players (socketId playerName : string) (g : GameState) :
  match findIndex (fun p => String.eqb (name p) playerName) (players g) with
  | Some i =>
      exists g', joinGame socketId playerName g = Returned Joined g'
                 /\ players g'
                    = updateAt i (fun p => mkPlayer socketId (name p) (score p) true)
                        (players g)
  | None =>
      if (2 <=? length (players g))%nat then
        match findIndex (fun p => negb (connected p)) (players g) with
        | Some i =>
            exists g', joinGame socketId playerName g = Returned Joined g'
                       /\ players g'
                          = updateAt i (fun _ => mkPlayer socketId playerName 0 true)
                              (players g)
        | None => joinGame socketId playerName g = Returned (JoinError "Room Full") g
        end
      else
        exists g', joinGame socketId playerName g = Returned Joined g'
                   /\ players g' = players g ++ [mkPlayer socketId playerName 0 true]
  end.
Proof.
  unfold joinGame, addPlayer, start, resetRound.
  destruct (findIndex (fun p => String.eqb (name p) playerName) (players g))
    as [i|] eqn:Hname; cbn [isNone andb].
  - rewrite andb_false_r. crunch; eexists; split; reflexivity.
  - destruct (2 <=? length (players g))%nat eqn:Hfull.
    + destruct (findIndex (fun p => negb (connected p)) (players g)) as [i|] eqn:Hdis.
      * cbn [players setPlayers isNone]. rewrite andb_false_r.
        crunch; eexists; (split; [reflexivity|]); cbn;
          now rewrite updateAt_compose.
      * rewrite Hfull. reflexivity.
    + rewrite Hfull. crunch; try discriminate; eexists; split; reflexivity.
Qed.


(** X15: a join is refused only for a room of two connected players none of
    whom has the caller's name, and then nothing changes.  Otherwise it
    succeeds and some seat holds the caller: socket id and name of the
    caller, connected, every other seat untouched.  When a player of the
    room has the caller's name, the seat is one that was held under that
    name and it keeps its score, whether or not its holder was connected.
    Only when no player has the caller's name is the seat taken over from a
    disconnected player or newly added, and then it starts at 0. *)
Theorem join_refused_or_seated (socketId playerName : string) (g : GameState) :
  (joinGame socketId playerName g = Returned (JoinError "Room Full") g
   /\ (2 <= length (players g))%nat
   /\ Forall (fun p => name p <> playerName /\ connected p = true) (players g))
  \/ (exists g' i p,
        joinGame socketId playerName g = Returned Joined g'
        /\ nth_error (players g') i = Some p
        /\ id p = socketId /\ name p = playerName /\ connected p = true
        /\ (forall j, j <> i -> nth_error (players g') j = nth_error (players g) j)
        /\ match nth_error (players g) i with
           | Some q =>
               (name q = playerName /\ score p = score q)
               \/ (Forall (fun r => name r <> playerName) (players g)
                   /\ connected q = false /\ score p = 0
                   /\ (2 <= length (players g))%nat)
           | None =>
               Forall (fun r => name r <> playerName) (players g)
               /\ score p = 0 /\ (length (players g) < 2)%nat
           end
        /\ (forall q, In q (players g) -> name q = playerName ->
            exists q', nth_error (players g) i = Some q'
                       /\ name q' = playerName /\ score p = score q')).
Proof.
  pose proof (joinGame_players socketId playerName g) as H.
  destruct (findIndex (fun p => String.eqb (name p) playerName) (players g))
    as [i|] eqn:Hname.
  - right. destruct H as (g' & Hj & Hp).
    apply findIndex_Some in Hname as (q & Hq & Hn). apply String.eqb_eq in Hn.
    exists g', i, (mkPlayer socketId (name q) (score q) true).
    split; [assumption|]. rewrite Hp, nth_error_updateAt, Hq. cbn.
    split; [reflexivity|]. split; [reflexivity|]. split; [assumption|].
    split; [reflexivity|]. split; [|split].
    + intros j Hj'. apply nth_error_updateAt_other. congruence.
    + left. auto.
    + intros _ _ _. exists q. auto.
  - apply findIndex_None in Hname.
    assert (Hnone : Forall (fun r => name r <> playerName) (players g)).
    { revert Hname. apply Forall_impl. intros r Hr. now apply String.eqb_neq. }
    assert (Hnobody : forall q, In q (players g) -> name q <> playerName).
    { now apply Forall_forall. }
    destruct (2 <=? length (players g))%nat eqn:Hfull.
    + destruct (findIndex (fun p => negb (connected p)) (players g)) as [i|] eqn:Hdis.
      * right. destruct H as (g' & Hj & Hp).
        apply findIndex_Some in Hdis as (q & Hq & Hc). apply negb_true_iff in Hc.
        apply Nat.leb_le in Hfull.
        exists g', i, (mkPlayer socketId playerName 0 true).
        split; [assumption|]. rewrite Hp, nth_error_updateAt, Hq. cbn.
        split; [reflexivity|]. split; [reflexivity|]. split; [reflexivity|].
        split; [reflexivity|]. split; [|split].
        -- intros j Hj'. apply nth_error_updateAt_other. congruence.
        -- right. auto.
        -- intros r Hr Hrn. exfalso. apply (Hnobody r Hr Hrn).
      * left. apply findIndex_None in Hdis. apply Nat.leb_le in Hfull.
        split; [assumption|]. split; [assumption|].
        rewrite Forall_forall in *. intros p Hin. split.
        -- apply Hnobody, Hin.
        -- apply negb_false_iff. apply Hdis, Hin.
    + right. destruct H as (g' & Hj & Hp). apply Nat.leb_gt in Hfull.
      exists g', (length (players g)), (mkPlayer socketId playerName 0 true).
      split; [assumption|]. rewrite Hp.
      rewrite nth_error_app2, Nat.sub_diag by lia. cbn.
      split; [reflexivity|]. split; [reflexivity|]. split; [reflexivity|].
      split; [reflexivity|]. split; [|split].
      * intros j Hj'. now apply nth_error_snoc_other.
      * rewrite (proj2 (nth_error_None (players g) (length (players g)))) by lia.
        auto.
      * intros r Hr Hrn. exfalso. apply (Hnobody r Hr Hrn).
Qed.




(** ** The final round is one turn *)

Lemma bank_finalTurn (s : string) (g : GameState) :
  seatsInvariant g -> finalTurnInvariant g -> finalTurnInvariant (stateOf (bank s g)).
Proof.
  intros (Hi & Hp & Hf) Hinv. unfold bank.
  destruct (isStatus playing g) eqn:Hst; cbn [negb]; [|exact Hinv].
  apply isStatus_true in Hst.
  destruct (getCurrentPlayer g) as [p|] eqn:Hcur; [|exact Hinv].
  destruct (negb _); [exact Hinv|].
  assert (Hlen : length (players g) = 2%nat) by (apply Hp; congruence).
  assert (Hb : forall n, finalTurnInvariant (stateOf (bankRound n g))).
  { intros n.
    destruct (bankRound_spec g n p Hlen Hcur Hst)
      as (g' & -> & _ & Hidx & _ & _ & _ & Hfin & Htr & Hs).
    unfold finalTurnInvariant. cbn [stateOf]. rewrite Hidx, Hfin, Htr, Hs.
    specialize (Hinv Hst).
    destruct (isFinalRound g) eqn:Ef; cbn [orb andb negb].
    - rewrite (Hinv eq_refl). cbn [optNatEqb]. rewrite Nat.eqb_refl. discriminate.
    - intros _ Hwin. rewrite Hwin. f_equal.
      destruct (currentPlayerIndex g) as [|[|?]]; [reflexivity | reflexivity | lia]. }
  destruct (0 <? length (filter selected (currentDice g)))%nat.
  - destruct (isScoringSelection _ _); [apply Hb | exact Hinv].
  - destruct ((0 <? length (currentDice g))%nat && (roundAccumulatedScore g =? 0));
      [exact Hinv | apply Hb].
Qed.

Lemma farkle_finalTurn (g : GameState) :
  seatsInvariant g -> finalTurnInvariant g -> finalTurnInvariant (stateOf (farkle g)).
Proof.
  intros (Hi & Hp & Hf) Hinv. unfold farkle, bind, modify.
  set (g0 := setRoundAccumulatedScore 0 g).
  pose proof (nextTurn_frame g0) as (_ & _ & _ & _ & _ & Hfin & _).
  unfold finalTurnInvariant. rewrite Hfin.
  change (isFinalRound g0) with (isFinalRound g).
  intros Hst' Ef. exfalso. revert Hst'.
  rewrite nextTurn_eq. change (isFinalRound g0) with (isFinalRound g).
  rewrite Ef. cbn [andb].
  change (currentPlayerIndex g0) with (currentPlayerIndex g).
  change (finalRoundTriggeredBy g0) with (finalRoundTriggeredBy g).
  specialize (Hp (Hf Ef)).
  destruct (gameStatus g) eqn:Hst.
  - exfalso. apply (Hf Ef). reflexivity.
  - rewrite (Hinv Hst Ef). cbn [optNatEqb]. rewrite Nat.eqb_refl.
    destruct (players g) as [|p1 [|p2 [|? ?]]] eqn:Epl; try discriminate Hp.
    rewrite (endGame_two (turned g0) p1 p2 Epl). cbn. discriminate.
  - destruct (optNatEqb _ _).
    + destruct (players g) as [|p1 [|p2 [|? ?]]] eqn:Epl; try discriminate Hp.
      rewrite (endGame_two (turned g0) p1 p2 Epl). cbn. discriminate.
    + cbn. rewrite Hst. discriminate.
Qed.

Ltac final_leaf :=
  unfold finalTurnInvariant in *; cbn -[Nat.modulo] in *;
  try solve [ intros; first [congruence | auto ] ].

Lemma finalTurnInvariant_step (a : Action) (g : GameState) :
  seatsInvariant g -> finalTurnInvariant g -> finalTurnInvariant (step a g).
Proof.
  intros Hseats Hinv. pose proof Hseats as (Hi & Hp & Hf).
  destruct a; cbn [step].
  - unfold joinGame, addPlayer, start, resetRound, isStatus.
    by_status g Hp Hf Hst; crunch_with Hst; final_leaf.
  - unfold leaveGame, isStatus.
    by_status g Hp Hf Hst; crunch_with Hst; final_leaf.
  - unfold roll, performRoll. crunch; final_leaf.
  - unfold toggleSelection. crunch; final_leaf.
  - apply bank_finalTurn; assumption.
  - apply farkle_finalTurn; assumption.
  - unfold restart, resetRound, isStatus.
    by_status g Hp Hf Hst; crunch_with Hst; final_leaf.
Qed.

Lemma reachable_finalTurn (g : GameState) :
  reachable g -> finalTurnInvariant g.
Proof.
  induction 1 as [room | a g Hg IH].
  - unfold finalTurnInvariant. cbn. discriminate.
  - apply finalTurnInvariant_step; [apply reachable_seats, Hg | exact IH].
Qed.

(** X17: the final round is one turn.  In a reachable match in play with
    the final round on, the seat that triggered it is the one that is not
    to play; so the first passing of the turn, by a successful bank or by
    the resolution of a bust, ends the match. *)
Theorem final_round_is_one_turn (g : GameState) :
  reachable g -> gameStatus g = playing -> isFinalRound g = true ->
  finalRoundTriggeredBy g = Some ((currentPlayerIndex g + 1) mod 2)%nat
  /\ gameStatus (stateOf (farkle g)) = finished
  /\ (forall playerId g',
        bank playerId g = Returned BankSuccess g' -> gameStatus g' = finished).
Proof.
  intros Hreach Hst Ef.
  pose proof (reachable_finalTurn g Hreach Hst Ef) as Htr.
  pose proof (reachable_seats g Hreach) as (Hi & Hp & _).
  assert (Hlen : length (players g) = 2%nat) by (apply Hp; congruence).
  split; [exact Htr|]. split.
  - unfold farkle, bind, modify. rewrite nextTurn_eq.
    cbn [isFinalRound currentPlayerIndex finalRoundTriggeredBy
         setRoundAccumulatedScore].
    rewrite Ef, Htr. cbn [andb optNatEqb]. rewrite Nat.eqb_refl.
    destruct (players g) as [|p1 [|p2 [|? ?]]] eqn:Epl; try discriminate Hlen.
    rewrite (endGame_two (turned (setRoundAccumulatedScore 0 g)) p1 p2 Epl).
    reflexivity.
  - intros playerId g' Hbank.
    apply bank_success in Hbank as (_ & p & n & Hcur & _ & Hb).
    destruct (bankRound_spec g n p Hlen Hcur Hst)
      as (g'' & Hb' & _ & _ & _ & _ & _ & _ & _ & Hs).
    rewrite Hb in Hb'. injection Hb' as <-.
    rewrite Hs, Ef, Htr. cbn [andb optNatEqb]. now rewrite Nat.eqb_refl.
Qed.

Lemma final_round_is_one_turn_witness :
  finalRoundTriggeredBy finalRound
  = Some ((currentPlayerIndex finalRound + 1) mod 2)%nat
  /\ gameStatus (stateOf (farkle finalRound)) = finished
  /\ (forall playerId g',
        bank playerId finalRound = Returned BankSuccess g' ->
        gameStatus g' = finished).
Proof.
  apply (final_round_is_one_turn finalRound).
  - unfold finalRound, beforeWinningBank, hotDiceRoll.
    do 3 apply reachable_play. apply reachable_firstRoll.
  - reflexivity.
  - reflexivity.
Defined.

(* ================================================================== *)
(** * The room list and the client *)
(* ================================================================== *)

(** ** The room list *)




(** ** The controls of the client *)

(** The server answers of a roll and of a bank by the current player. *)
Lemma roll_by_current_player (rng : Rng) (g : GameState) (p : Player) :
  gameStatus g = playing -> getCurrentPlayer g = Some p ->
  roll (id p) rng g
  = (if (0 <? length (currentDice g))%nat
        && (length (filter selected (currentDice g)) =? 0)%nat
     then Returned (RollError "Must select dice to re-roll") g
     else roll (id p) rng g)
  /\ ((length (currentDice g) = 0%nat
       \/ (0 < length (filter selected (currentDice g)))%nat) ->
      roll (id p) rng g = Returned (RollError "Invalid selection") g
      \/ exists dice fk rs hot g',
           roll (id p) rng g = Returned (RollSuccess dice fk rs hot) g').
Proof.
  intros Hst Hcur. apply isStatus_true in Hst.
  unfold roll. rewrite Hst, Hcur, String.eqb_refl. cbn [negb].
  destruct (0 <? length (currentDice g))%nat eqn:Hd; cbn [andb].
  - destruct (length (filter selected (currentDice g)) =? 0)%nat eqn:Hs.
    + split; [reflexivity|]. bool_facts. intros [H | H]; lia.
    + split; [reflexivity|]. intros _.
      destruct (isScoringSelection _ _); cbn [negb]; [right | left; reflexivity].
      unfold performRoll. run. eauto 10.
  - split; [reflexivity|]. intros _. right.
    unfold performRoll. crunch; eauto 10.
Qed.

Lemma bank_with_selection (g : GameState) (p : Player) :
  length (players g) = 2%nat ->
  gameStatus g = playing -> getCurrentPlayer g = Some p ->
  (0 < length (filter selected (currentDice g)))%nat ->
  bank (id p) g = Returned (BankError "Invalid selection") g
  \/ exists g', bank (id p) g = Returned BankSuccess g'.
Proof.
  intros Hlen Hst Hcur Hsel. pose proof Hst as Hst'. apply isStatus_true in Hst'.
  unfold bank. rewrite Hst', Hcur, String.eqb_refl. cbn [negb].
  apply Nat.ltb_lt in Hsel. rewrite Hsel.
  destruct (isScoringSelection _ _); [right | left; reflexivity].
  destruct (bankRound_spec g
              (calculateScore (map value (filter selected (currentDice g)))
                 DEFAULT_RULES) p Hlen Hcur Hst) as (g' & Hb & _).
  eauto.
Qed.

(** X19: the controls that the client renders from the state of a reachable
    match agree with what the server will answer.  The client takes itself
    for the player to act exactly when the server does.  With the Roll
    button enabled a roll succeeds or is refused for the selection alone;
    with the button disabled the server refuses the roll for another
    reason (no match in play, not the caller's turn, nothing selected).  With the Bank button enabled a bank succeeds or is refused for
    the selection alone.  A click on a die is sent only when the server
    accepts the toggle. *)
Theorem controls_agree_with_server (socketId : string) (rng : Rng)
    (g : GameState) (ui : Client.Controls) :
  reachable g ->
  let shown := Some (Lobby.getState g) in
  let ui' := Client.renderControls socketId shown ui in
  (Client.canInteract socketId shown = true
   <-> gameStatus g = playing
       /\ exists p, getCurrentPlayer g = Some p /\ id p = socketId)
  /\ (Client.rollDisabled ui' = false ->
      roll socketId rng g = Returned (RollError "Invalid selection") g
      \/ exists dice fk rs hot g',
           roll socketId rng g = Returned (RollSuccess dice fk rs hot) g')
  /\ (Client.rollDisabled ui' = true ->
      exists e, roll socketId rng g = Returned (RollError e) g
                /\ (e = "Game not active" \/ e = "Not your turn"
                    \/ e = "Must select dice to re-roll")%string)
  /\ (Client.bankDisabled ui' = false ->
      bank socketId g = Returned (BankError "Invalid selection") g
      \/ exists g', bank socketId g = Returned BankSuccess g')
  /\ (Client.canInteract socketId shown = true ->
      forall dieId', exists g',
        toggleSelection socketId dieId' g = Returned ToggleTrue g').
Proof.
  intros Hreach shown ui'. subst shown ui'.
  pose proof (reachable_seats g Hreach) as (Hi & Hp & _).
  unfold Client.renderControls, Client.canInteract, Lobby.getState.
  cbn [Lobby.gameStatus Lobby.players Lobby.currentPlayerIndex Lobby.currentDice
       Lobby.roundAccumulatedScore].
  change (nth_error (players g) (currentPlayerIndex g)) with (getCurrentPlayer g).
  assert (Hidle : gameStatus g <> playing ->
                  roll socketId rng g = Returned (RollError "Game not active") g).
  { intros Hne. unfold roll, isStatus. destruct (gameStatus g); try reflexivity.
    contradiction. }
  destruct (gameStatus g) eqn:Hst.
  - cbn. repeat split; try discriminate.
    + intros [H _]. discriminate H.
    + intros _. eexists. split; [apply Hidle; discriminate | auto].
  - destruct (reachable_current_player g Hreach) as (p & Hcur);
      [congruence|].
    rewrite Hcur.
    destruct (String.eqb_spec (id p) socketId) as [<- | Hne]; cbn [negb].
    + pose proof (roll_by_current_player rng g p Hst Hcur) as (Hmust & Hroll).
      pose proof (bank_with_selection g p (Hp ltac:(congruence)) Hst Hcur) as Hbank.
      split; [split; [intros _; eauto | reflexivity]|].
      assert (Htoggle : forall dieId', exists g',
                 toggleSelection (id p) dieId' g = Returned ToggleTrue g').
      { intros d. unfold toggleSelection, isStatus.
        rewrite Hst, Hcur, String.eqb_refl. cbn [negb].
        destruct (findIndex _ _); eauto. }
      destruct (length (currentDice g) =? 0)%nat eqn:Hd; bool_facts.
      * cbn. repeat split; try discriminate; auto.
      * assert (Hd' : (0 <? length (currentDice g))%nat = true)
          by (apply Nat.ltb_lt; lia).
        rewrite Hd' in *. cbn [andb] in *.
        destruct (0 <? length (filter selected (currentDice g)))%nat eqn:Hs;
          bool_facts;
          destruct (length (filter selected (currentDice g))
                    =? length (currentDice g))%nat;
          cbn; repeat split; try discriminate; auto;
          try (intros _; apply Hroll; lia);
          try (intros _; apply Hbank; lia).
        all: intros _.
        all: assert (Hz : (length (filter selected (currentDice g)) =? 0)%nat = true)
               by (apply Nat.eqb_eq; lia).
        all: eexists; split; [rewrite Hmust, Hz; reflexivity | auto].
    + cbn. apply String.eqb_neq in Hne.
      repeat split; try discriminate.
      * intros (_ & q & Hq & Hid). injection Hq as <-.
        apply String.eqb_neq in Hne. contradiction.
      * intros _. eexists.
        split; [unfold roll, isStatus; rewrite Hst, Hcur, Hne; reflexivity
               | auto].
  - cbn. repeat split; try discriminate.
    + intros [H _]. discriminate H.
    + intros _. eexists. split; [apply Hidle; discriminate | auto].
Qed.

Lemma controls_agree_with_server_witness :
  let shown := Some (Lobby.getState firstRoll) in
  let ui' := Client.renderControls "a" shown
               (Client.mkControls true "Roll" true "Your turn" (0, 0)) in
  (Client.canInteract "a" shown = true
   <-> gameStatus firstRoll = playing
       /\ exists p, getCurrentPlayer firstRoll = Some p /\ id p = "a"%string)
  /\ (Client.rollDisabled ui' = false ->
      roll "a" allOnes firstRoll = Returned (RollError "Invalid selection") firstRoll
      \/ exists dice fk rs hot g',
           roll "a" allOnes firstRoll = Returned (RollSuccess dice fk rs hot) g')
  /\ (Client.rollDisabled ui' = true ->
      exists e, roll "a" allOnes firstRoll = Returned (RollError e) firstRoll
                /\ (e = "Game not active" \/ e = "Not your turn"
                    \/ e = "Must select dice to re-roll")%string)
  /\ (Client.bankDisabled ui' = false ->
      bank "a" firstRoll = Returned (BankError "Invalid selection") firstRoll
      \/ exists g', bank "a" firstRoll = Returned BankSuccess g')
  /\ (Client.canInteract "a" shown = true ->
      forall dieId', exists g',
        toggleSelection "a" dieId' firstRoll = Returned ToggleTrue g').
Proof.
  apply (controls_agree_with_server "a" allOnes firstRoll
           (Client.mkControls true "Roll" true "Your turn" (0, 0))
           reachable_firstRoll).
Defined.
